(** * qcam capture session: a shallow embedding of [src/qcam/main_window.cpp]

    The development models the capture-session part of [MainWindow]
    ([startCapture], [stopCapture], [requestComplete], [display]) as pure
    functions over an explicit window state.  Everything the code asks of its
    collaborators (camera, allocator, viewfinder, [mmap]) is an answer read from
    an environment record, and everything it does to them is an [Event] of the
    returned trace, in program order. *)

From Stdlib Require Import ZArith Lia Bool List.
From Stdlib Require Import Floats.SpecFloat.
From stdpp Require Import gmap list sorting strings.

Local Open Scope Z_scope.

(** ** Machine integers and doubles *)

(** [unsigned int] and [uint64_t] arithmetic wraps around. *)
Definition wrap32 (z : Z) : Z := z mod 2 ^ 32.
Definition wrap64 (z : Z) : Z := z mod 2 ^ 64.

(** A C++ [double] is an IEEE 754 binary64 number: 53 bits of precision,
    exponents below 1024. *)
Definition double : Type := spec_float.

Definition double_of_uint64 (z : Z) : double := binary_normalize 53 1024 z 0 false.
Definition double_div (x y : double) : double := SFdiv 53 1024 x y.

(** Conversion of a [double] to [bool]: false exactly for the two zeros. *)
Definition double_is_zero (x : double) : bool :=
  match x with
  | S754_zero _ => true
  | _ => false
  end.

(** The literals [1000000000.0] and [0.0]. *)
Definition d1e9 : double := double_of_uint64 1000000000.
Definition d0 : double := S754_zero false.

(** ** Values of [<errno.h>] and [<sys/mman.h>] (Linux) *)

Definition ENOMEM : Z := 12.
Definition EINVAL : Z := 22.

(** [mmap] returns [(void * ) -1] when it fails. *)
Definition MAP_FAILED : Z := -1.
Definition nullptr : Z := 0.

(** ** Data model *)

(** Modelled from the spec: the declarations of [FrameBuffer], [FrameBuffer::Plane]
    and [FrameMetadata] are not part of the sources at hand.  Following the data
    model of the specification, a plane is a file descriptor, a byte length and
    the byte count used once the buffer is filled, so that
    [buffer->planes()[i]] and [buffer->metadata().planes[i]] are the two halves
    of the i-th [Plane] below. *)
Record Plane : Type := mkPlane {
  plane_fd : Z;
  plane_length : Z;
  plane_bytesused : Z
}.

Record FrameBuffer : Type := mkFrameBuffer {
  planes : list Plane;
  sequence : Z;
  timestamp : Z
}.

(** Pointers handed out by the camera. *)
Definition RequestPtr : Type := Z.
Definition StreamPtr : Type := Z.

Inductive RequestStatus : Type :=
| RequestPending
| RequestComplete
| RequestCancelled.

(** A request as the completion handler sees it: its status and its
    [std::map<Stream *, FrameBuffer *>], in key order. *)
Record Request : Type := mkRequest {
  status : RequestStatus;
  buffers : list (StreamPtr * FrameBuffer)
}.

Inductive ConfigStatus : Type :=
| Valid
| Adjusted
| Invalid.

(** [allocator_] is a raw pointer: [stopCapture] deletes the object and leaves
    the pointer as it is. *)
Inductive AllocatorPtr : Type :=
| AllocNull
| AllocLive
| AllocDeleted.

(** Modelled from the spec: the class declaration ([main_window.h]) is not
    part of the sources at hand.  The record holds the members that the four
    functions below read or write: the Mapped-Buffer Table [mappedBuffers_], a
    [std::map] from file descriptor to (memory, length); the capturing flag;
    the frame counters of the statistics, 32-bit unsigned; the timestamp of
    the last completed buffer, 64-bit unsigned like the metadata timestamp;
    the allocator pointer; whether [config_] holds a configuration and
    whether [titleTimer_] runs. *)
Record MainWindow : Type := mkMainWindow {
  mappedBuffers_ : gmap Z (Z * Z);
  isCapturing_ : bool;
  framesCaptured_ : Z;
  previousFrames_ : Z;
  lastBufferTime_ : Z;
  allocator_ : AllocatorPtr;
  config_ : bool;
  titleTimer_ : bool
}.

Definition set_mappedBuffers (m : gmap Z (Z * Z)) (w : MainWindow) : MainWindow :=
  mkMainWindow m (isCapturing_ w) (framesCaptured_ w) (previousFrames_ w)
    (lastBufferTime_ w) (allocator_ w) (config_ w) (titleTimer_ w).

Definition set_isCapturing (b : bool) (w : MainWindow) : MainWindow :=
  mkMainWindow (mappedBuffers_ w) b (framesCaptured_ w) (previousFrames_ w)
    (lastBufferTime_ w) (allocator_ w) (config_ w) (titleTimer_ w).

Definition set_allocator (a : AllocatorPtr) (w : MainWindow) : MainWindow :=
  mkMainWindow (mappedBuffers_ w) (isCapturing_ w) (framesCaptured_ w)
    (previousFrames_ w) (lastBufferTime_ w) a (config_ w) (titleTimer_ w).

Definition set_config (c : bool) (w : MainWindow) : MainWindow :=
  mkMainWindow (mappedBuffers_ w) (isCapturing_ w) (framesCaptured_ w)
    (previousFrames_ w) (lastBufferTime_ w) (allocator_ w) c (titleTimer_ w).

Definition set_titleTimer (t : bool) (w : MainWindow) : MainWindow :=
  mkMainWindow (mappedBuffers_ w) (isCapturing_ w) (framesCaptured_ w)
    (previousFrames_ w) (lastBufferTime_ w) (allocator_ w) (config_ w) t.

(** [previousFrames_ = 0; framesCaptured_ = 0; lastBufferTime_ = 0;] *)
Definition reset_counters (w : MainWindow) : MainWindow :=
  mkMainWindow (mappedBuffers_ w) (isCapturing_ w) 0 0 0
    (allocator_ w) (config_ w) (titleTimer_ w).

(** [framesCaptured_++] and [lastBufferTime_ = metadata.timestamp]. *)
Definition count_frame (ts : Z) (w : MainWindow) : MainWindow :=
  mkMainWindow (mappedBuffers_ w) (isCapturing_ w) (wrap32 (framesCaptured_ w + 1))
    (previousFrames_ w) ts (allocator_ w) (config_ w) (titleTimer_ w).

(** The window as the constructor leaves it before [openCamera].  The
    initialiser list sets [allocator_] and [isCapturing_]; the table,
    [config_] and [titleTimer_] are default-constructed; [framesCaptured_],
    [previousFrames_] and [lastBufferTime_] are not initialised, so they hold
    whatever [frames], [previous] and [last] the memory of the object held. *)
Definition initial (frames previous last : Z) : MainWindow :=
  mkMainWindow ∅ false frames previous last AllocNull false false.

(** ** Effects *)

(** What the session does to its collaborators.  Calls whose answer the code
    looks at carry that answer. *)
Inductive Event : Type :=
| Configure (ret : Z)
| SetFormat (ret : Z)
| Allocate (ret : Z)
| CreateRequest (request : option RequestPtr)
| AddBuffer (request : RequestPtr) (stream : StreamPtr) (buffer : FrameBuffer) (ret : Z)
| Mmap (length fd memory : Z)
| Munmap (memory length : Z)
| DeleteRequest (request : RequestPtr)
| CameraStart (ret : Z)
| CameraStop (ret : Z)
| QueueRequest (request : RequestPtr) (ret : Z)
| DeleteAllocator
| Display (raw size : Z)
| Log (seq bytesused ts : Z) (fps : spec_float).

(** A call either returns or has undefined behaviour ([front()] of an empty
    vector, [begin()] of an empty map dereferenced, index 0 of an empty
    vector). *)
Inductive Outcome (A : Type) : Type :=
| Done (a : A)
| Undefined.
Arguments Done {A} a.
Arguments Undefined {A}.

(** ** [MainWindow::startCapture] *)

(** The answers of the collaborators during one call of [startCapture].  The
    functions of [nat] are indexed by the iteration of the loop that asks.
    The size requested on the command line (lines 204 to 218) only changes
    the configuration that [validate] and [configure] are given, and is part
    of what decides their answers. *)
Record StartEnv : Type := mkStartEnv {
  validation : ConfigStatus;
  configure_ret : Z;
  stream : StreamPtr;
  setFormat_ret : Z;
  allocate_ret : Z;
  stream_buffers : list FrameBuffer;
  createRequest_res : nat -> option RequestPtr;
  addBuffer_ret : nat -> Z;
  mmap_ret : nat -> Z;
  start_ret : Z;
  queueRequest_ret : nat -> Z
}.

(** How a loop over the buffers or the requests ends: it runs to completion,
    jumps to [error] with [ret] set, or hits undefined behaviour.  In the first
    two cases it leaves the local vector [requests], the table and the events
    it performed. *)
Inductive Flow : Type :=
| Next (requests : list RequestPtr) (mapped : gmap Z (Z * Z)) (tr : list Event)
| GotoError (ret : Z) (requests : list RequestPtr) (mapped : gmap Z (Z * Z)) (tr : list Event)
| Fault.

Definition emit (evs : list Event) (f : Flow) : Flow :=
  match f with
  | Next rs m tr => Next rs m (evs ++ tr)
  | GotoError ret rs m tr => GotoError ret rs m (evs ++ tr)
  | Fault => Fault
  end.

(** The loop over [allocator_->buffers(stream)]; [i] counts the iterations
    done so far. *)
Fixpoint populate (env : StartEnv) (i : nat) (bufs : list FrameBuffer)
    (requests : list RequestPtr) (mapped : gmap Z (Z * Z)) : Flow :=
  match bufs with
  | [] => Next requests mapped []
  | buffer :: rest =>
    match createRequest_res env i with
    | None => GotoError (- ENOMEM) requests mapped [CreateRequest None]
    | Some request =>
      let ret := addBuffer_ret env i in
      if ret <? 0 then
        GotoError ret requests mapped
          [CreateRequest (Some request); AddBuffer request (stream env) buffer ret]
      else
        let requests := requests ++ [request] in
        match planes buffer with
        | [] => Fault
        | plane :: _ =>
          let memory := mmap_ret env i in
          let mapped := <[plane_fd plane := (memory, plane_length plane)]> mapped in
          emit [CreateRequest (Some request);
                AddBuffer request (stream env) buffer ret;
                Mmap (plane_length plane) (plane_fd plane) memory]
               (populate env (S i) rest requests mapped)
        end
    end
  end.

(** The loop [for (Request *request : requests) camera_->queueRequest(request)]:
    the events performed and, if a call failed, its return value. *)
Fixpoint queueAll (env : StartEnv) (i : nat) (requests : list RequestPtr)
    : option Z * list Event :=
  match requests with
  | [] => (None, [])
  | request :: rest =>
    let ret := queueRequest_ret env i in
    if ret <? 0 then (Some ret, [QueueRequest request ret])
    else
      let '(r, tr) := queueAll env (S i) rest in
      (r, QueueRequest request ret :: tr)
  end.

(** The entries of a [std::map<int, ...>] in the order of iteration, by key. *)
Definition key_le (a b : Z * (Z * Z)) : Prop := fst a ≤ fst b.

#[global] Instance key_le_dec : RelDecision key_le.
Proof. intros a b. unfold key_le. apply _. Defined.

Definition entries (mapped : gmap Z (Z * Z)) : list (Z * (Z * Z)) :=
  merge_sort key_le (map_to_list mapped).

(** [munmap] of every entry of the table: the loops at lines 306 and 325. *)
Definition unmapAll (mapped : gmap Z (Z * Z)) : list Event :=
  (λ kv : Z * (Z * Z), Munmap (fst (snd kv)) (snd (snd kv))) <$> entries mapped.

(** The code at label [error]. *)
Definition unwind (ret : Z) (requests : list RequestPtr) (mapped : gmap Z (Z * Z))
    (tr : list Event) (w : MainWindow) : Outcome (Z * MainWindow * list Event) :=
  Done (ret, set_mappedBuffers ∅ w,
        tr ++ (DeleteRequest <$> requests) ++ unmapAll mapped).

Definition startCapture (env : StartEnv) (w : MainWindow)
    : Outcome (Z * MainWindow * list Event) :=
  let w := set_config true w in
  match validation env with
  | Invalid => Done (- EINVAL, w, [])
  | _ =>
    let ret := configure_ret env in
    if ret <? 0 then Done (ret, w, [Configure ret])
    else
      let tr := [Configure ret] in
      let ret := setFormat_ret env in
      if ret <? 0 then Done (ret, w, tr ++ [SetFormat ret])
      else
        let tr := tr ++ [SetFormat ret] in
        let w := set_allocator AllocLive w in
        let ret := allocate_ret env in
        if ret <? 0 then Done (ret, w, tr ++ [Allocate ret])
        else
          let tr := tr ++ [Allocate ret] in
          match populate env 0 (stream_buffers env) [] (mappedBuffers_ w) with
          | Fault => Undefined
          | GotoError ret requests mapped tr' => unwind ret requests mapped (tr ++ tr') w
          | Next requests mapped tr' =>
            let tr := tr ++ tr' in
            let w := set_titleTimer true (reset_counters (set_mappedBuffers mapped w)) in
            let ret := start_ret env in
            if negb (ret =? 0) then unwind ret requests mapped (tr ++ [CameraStart ret]) w
            else
              let tr := tr ++ [CameraStart ret] in
              match queueAll env 0 requests with
              | (Some ret, tr') => unwind ret requests mapped (tr ++ tr') w
              | (None, tr') => Done (0, set_isCapturing true w, tr ++ tr')
              end
          end
  end.

(** ** [MainWindow::stopCapture] *)

(** [stop_ret] is what [camera_->stop()] answers when it is asked. *)
Definition stopCapture (stop_ret : Z) (w : MainWindow) : MainWindow * list Event :=
  if negb (isCapturing_ w) then (w, [])
  else
    (set_titleTimer false
       (set_config false
          (set_isCapturing false
             (set_allocator AllocDeleted (set_mappedBuffers ∅ w)))),
     [CameraStop stop_ret] ++ unmapAll (mappedBuffers_ w) ++ [DeleteAllocator]).

(** ** [MainWindow::requestComplete] and [MainWindow::display] *)

(** Lines 354 and 355: the difference of the two [uint64_t] timestamps is
    converted to [double]; the rate is [1000000000.0 / fps] when both
    [lastBufferTime_] and that difference are non-zero, [0.0] otherwise. *)
Definition frameRate (lastBufferTime timestamp : Z) : double :=
  let fps := double_of_uint64 (wrap64 (timestamp - lastBufferTime)) in
  if negb (lastBufferTime =? 0) && negb (double_is_zero fps)
  then double_div d1e9 fps
  else d0.

(** [mappedBuffers_[key]]: [std::map::operator[]] returns the entry of [key],
    after inserting a value-initialised one when there is none. *)
Definition subscript (mapped : gmap Z (Z * Z)) (key : Z) : (Z * Z) * gmap Z (Z * Z) :=
  match mapped !! key with
  | Some entry => (entry, mapped)
  | None => ((nullptr, 0), <[key := (nullptr, 0)]> mapped)
  end.

Definition display (buffer : FrameBuffer) (w : MainWindow)
    : Outcome (Z * MainWindow * list Event) :=
  if negb (length (planes buffer) =? 1)%nat then Done (- EINVAL, w, [])
  else
    match planes buffer with
    | [] => Undefined
    | plane :: _ =>
      let '(entry, mapped) := subscript (mappedBuffers_ w) (plane_fd plane) in
      let raw := fst entry in
      Done (0, set_mappedBuffers mapped w, [Display raw (plane_bytesused plane)])
    end.

(** The line written to [std::cout] at lines 358 to 362, with the rate of
    lines 354 and 355, computed against the timestamp stored in [w]. *)
Definition log_line (w : MainWindow) (buffer : FrameBuffer) (plane0 : Plane) : Event :=
  Log (sequence buffer) (plane_bytesused plane0) (timestamp buffer)
    (frameRate (lastBufferTime_ w) (timestamp buffer)).

(** The answers of the camera during one call of [requestComplete]; the code
    ignores what [addBuffer] and [queueRequest] return there. *)
Record CompleteEnv : Type := mkCompleteEnv {
  createRequest_new : option RequestPtr;
  addBuffer_new : Z;
  queueRequest_new : Z
}.

(** Lines 366 to 379: a new request takes over every buffer of the completed
    one and is queued, unless the camera hands out no request. *)
Definition resubmit (env : CompleteEnv) (bufs : list (StreamPtr * FrameBuffer))
    : list Event :=
  match createRequest_new env with
  | None => [CreateRequest None]
  | Some request =>
    CreateRequest (Some request)
      :: ((λ sb : StreamPtr * FrameBuffer,
             AddBuffer request (fst sb) (snd sb) (addBuffer_new env)) <$> bufs)
      ++ [QueueRequest request (queueRequest_new env)]
  end.

Definition requestComplete (env : CompleteEnv) (request : Request) (w : MainWindow)
    : Outcome (MainWindow * list Event) :=
  match status request with
  | RequestCancelled => Done (w, [])
  | _ =>
    match buffers request with
    | [] => Undefined
    | (_, buffer) :: _ =>
      let w1 := count_frame (timestamp buffer) w in
      match planes buffer with
      | [] => Undefined
      | plane0 :: _ =>
        match display buffer w1 with
        | Undefined => Undefined
        | Done (_, w2, tr) =>
          Done (w2, log_line w buffer plane0 :: tr ++ resubmit env (buffers request))
        end
      end
    end
  end.

(** ** Reading a trace *)

Definition created (tr : list Event) : list RequestPtr :=
  flat_map (λ e, match e with CreateRequest (Some r) => [r] | _ => [] end) tr.

Definition deleted (tr : list Event) : list RequestPtr :=
  flat_map (λ e, match e with DeleteRequest r => [r] | _ => [] end) tr.

Definition queued (tr : list Event) : list RequestPtr :=
  flat_map (λ e, match e with QueueRequest r ret => if ret <? 0 then [] else [r] | _ => [] end) tr.

Definition displayed (tr : list Event) : list (Z * Z) :=
  flat_map (λ e, match e with Display raw size => [(raw, size)] | _ => [] end) tr.

Definition logged_fps (tr : list Event) : list spec_float :=
  flat_map (λ e, match e with Log _ _ _ fps => [fps] | _ => [] end) tr.

(** The descriptor of the first plane of each buffer that has one. *)
Definition first_fds (bufs : list FrameBuffer) : list Z :=
  flat_map (λ b, match planes b with plane :: _ => [plane_fd plane] | [] => [] end) bufs.

(** The trace holds an [allocate] call that succeeded. *)
Definition allocated (tr : list Event) : bool :=
  existsb (λ e, match e with Allocate ret => negb (ret <? 0) | _ => false end) tr.

(** An [addBuffer] call of the trace failed. *)
Definition bind_failed (tr : list Event) : bool :=
  existsb (λ e, match e with AddBuffer _ _ _ ret => ret <? 0 | _ => false end) tr.

(** ** The three ways [startCapture] returns *)

(** An early [return ret] before the first loop, a return through the label
    [error], or [return 0]. *)
Definition returned_early (w w' : MainWindow) (ret : Z) (tr : list Event) : Prop :=
  ret < 0
  ∧ mappedBuffers_ w' = mappedBuffers_ w ∧ isCapturing_ w' = isCapturing_ w
  ∧ created tr = [] ∧ deleted tr = [] ∧ queued tr = [] ∧ bind_failed tr = false
  ∧ allocated tr = false.

Definition returned_unwound (w w' : MainWindow) (ret : Z) (tr : list Event) : Prop :=
  ret ≠ 0
  ∧ mappedBuffers_ w' = ∅ ∧ isCapturing_ w' = isCapturing_ w
  ∧ ((bind_failed tr = false ∧ created tr = deleted tr)
     ∨ (bind_failed tr = true ∧ ∃ r, created tr = deleted tr ++ [r]))
  ∧ allocated tr = true.

Definition returned_success (env : StartEnv) (w w' : MainWindow) (ret : Z)
    (tr : list Event) : Prop :=
  ret = 0
  ∧ isCapturing_ w' = true
  ∧ dom (mappedBuffers_ w')
    = dom (mappedBuffers_ w) ∪ list_to_set (first_fds (stream_buffers env))
  ∧ queued tr = created tr ∧ deleted tr = []
  ∧ length (queued tr) = length (stream_buffers env)
  ∧ length (first_fds (stream_buffers env)) = length (stream_buffers env)
  ∧ framesCaptured_ w' = 0 ∧ lastBufferTime_ w' = 0.

(** ** Sample sessions *)

(** A single-plane buffer of 4096 bytes on descriptor [fd]. *)
Definition buffer1 (fd : Z) : FrameBuffer := mkFrameBuffer [mkPlane fd 4096 0] 0 0.

(** Collaborators that grant everything: the i-th request lives at [100 + i],
    the i-th mapping at [65536 + 4096 * i]. *)
Definition cooperative (bufs : list FrameBuffer) : StartEnv :=
  mkStartEnv Valid 0 1 0 0 bufs
    (λ i, Some (100 + Z.of_nat i)) (λ _, 0)
    (λ i, 65536 + 4096 * Z.of_nat i) 0 (λ _, 0).

Definition with_configure (ret : Z) (env : StartEnv) : StartEnv :=
  mkStartEnv (validation env) ret (stream env) (setFormat_ret env)
    (allocate_ret env) (stream_buffers env) (createRequest_res env)
    (addBuffer_ret env) (mmap_ret env) (start_ret env) (queueRequest_ret env).

Definition with_createRequest (f : nat → option RequestPtr) (env : StartEnv) : StartEnv :=
  mkStartEnv (validation env) (configure_ret env) (stream env) (setFormat_ret env)
    (allocate_ret env) (stream_buffers env) f
    (addBuffer_ret env) (mmap_ret env) (start_ret env) (queueRequest_ret env).

Definition with_addBuffer (f : nat → Z) (env : StartEnv) : StartEnv :=
  mkStartEnv (validation env) (configure_ret env) (stream env) (setFormat_ret env)
    (allocate_ret env) (stream_buffers env) (createRequest_res env)
    f (mmap_ret env) (start_ret env) (queueRequest_ret env).

Definition with_mmap (f : nat → Z) (env : StartEnv) : StartEnv :=
  mkStartEnv (validation env) (configure_ret env) (stream env) (setFormat_ret env)
    (allocate_ret env) (stream_buffers env) (createRequest_res env)
    (addBuffer_ret env) f (start_ret env) (queueRequest_ret env).

(** The window while it captures from one buffer on descriptor 3. *)
Definition w_running : MainWindow :=
  mkMainWindow {[3 := (65536, 4096)]} true 0 0 0 AllocLive true true.

(** A window as constructed, with some values in the three members that the
    constructor does not initialise. *)
Definition w_constructed : MainWindow := initial 41 7 1234.

(** The camera refuses [configure] with [-EACCES]. *)
Definition env_configure_rejected : StartEnv :=
  with_configure (-13) (cooperative [buffer1 3]).

(** The camera hands out no second request. *)
Definition env_no_second_request : StartEnv :=
  with_createRequest (λ i, if (i =? 0)%nat then Some 100 else None)
    (cooperative [buffer1 3; buffer1 4]).

(** [addBuffer] fails with [-EEXIST] for the second buffer. *)
Definition env_bind_fails : StartEnv :=
  with_addBuffer (λ i, if (i =? 0)%nat then 0 else -17)
    (cooperative [buffer1 3; buffer1 4]).

(** [mmap] fails for the only buffer. *)
Definition env_mmap_fails : StartEnv :=
  with_mmap (λ _, MAP_FAILED) (cooperative [buffer1 3]).

(** The return value of a call, if it returns. *)
Definition ret_of (o : Outcome (Z * MainWindow * list Event)) : option Z :=
  match o with
  | Done (ret, _, _) => Some ret
  | Undefined => None
  end.

(** What decides how a loop goes on: where it ends, with which [ret] and which
    [requests]. *)
Definition flow_control (f : Flow) : option (option Z * list RequestPtr) :=
  match f with
  | Next rs _ _ => Some (None, rs)
  | GotoError ret rs _ _ => Some (Some ret, rs)
  | Fault => None
  end.

(** A completed request whose buffer has two planes. *)
Definition request_two_planes : Request :=
  mkRequest RequestComplete
    [(1, mkFrameBuffer [mkPlane 3 4096 3; mkPlane 4 2048 5] 9 2000)].

(** A completed request whose single-plane buffer on descriptor [fd] holds
    [used] bytes and was filled at [ts]. *)
Definition request_one_plane (fd used ts : Z) : Request :=
  mkRequest RequestComplete [(1, mkFrameBuffer [mkPlane fd 4096 used] 0 ts)].

(** A camera that hands out request 200, and one that hands out none. *)
Definition env_resubmit : CompleteEnv := mkCompleteEnv (Some 200) 0 0.
Definition env_no_request : CompleteEnv := mkCompleteEnv None 0 0.

(** A window that is not capturing holds no mapping. *)
Definition idle_clean (w : MainWindow) : Prop :=
  isCapturing_ w = false → mappedBuffers_ w = ∅.

(** * The rest of the window *)

(** ** More readers of a trace *)

(** The mappings made, as (descriptor, (memory, length)), in program order. *)
Definition mmapped (tr : list Event) : list (Z * (Z * Z)) :=
  flat_map (λ e, match e with Mmap len fd memory => [(fd, (memory, len))] | _ => [] end) tr.

(** The regions unmapped, as (memory, length), in program order. *)
Definition munmapped (tr : list Event) : list (Z * Z) :=
  flat_map (λ e, match e with Munmap memory len => [(memory, len)] | _ => [] end) tr.

(** The [camera_->stop()] calls. *)
Definition camera_stops (tr : list Event) : list Z :=
  flat_map (λ e, match e with CameraStop ret => [ret] | _ => [] end) tr.

(** The [camera_->start()] calls. *)
Definition camera_starts (tr : list Event) : list Z :=
  flat_map (λ e, match e with CameraStart ret => [ret] | _ => [] end) tr.

(** The requests handed to [camera_->queueRequest()], accepted or not. *)
Definition queue_calls (tr : list Event) : list RequestPtr :=
  flat_map (λ e, match e with QueueRequest r _ => [r] | _ => [] end) tr.

(** The table after the assignments [mappedBuffers_[fd] = (memory, length)]
    of a list of mappings, made in order on the table [m]. *)
Definition record_mappings (l : list (Z * (Z * Z))) (m : gmap Z (Z * Z)) : gmap Z (Z * Z) :=
  foldl (λ acc kv, <[fst kv := snd kv]> acc) m l.

(** ** Completions in a row *)

(** The camera delivers completions one after the other, each with the
    answers it gives during that call of the slot. *)
Fixpoint completeAll (cs : list (CompleteEnv * Request)) (w : MainWindow)
    : Outcome (MainWindow * list Event) :=
  match cs with
  | [] => Done (w, [])
  | (env, request) :: rest =>
    match requestComplete env request w with
    | Undefined => Undefined
    | Done (w1, tr1) =>
      match completeAll rest w1 with
      | Undefined => Undefined
      | Done (w2, tr2) => Done (w2, tr1 ++ tr2)
      end
    end
  end.

Definition cancelled (request : Request) : bool :=
  match status request with
  | RequestCancelled => true
  | _ => false
  end.

(** The completions that are not cancelled, and among them those for which
    the camera hands out a new request. *)
Definition completed (cs : list (CompleteEnv * Request)) : list (CompleteEnv * Request) :=
  filter (λ c, cancelled (snd c) = false) cs.

Definition resubmitted (cs : list (CompleteEnv * Request)) : list RequestPtr :=
  omap (λ c, createRequest_new (fst c)) (completed cs).

(** ** [MainWindow::updateTitle] *)

Definition set_previousFrames (p : Z) (w : MainWindow) : MainWindow :=
  mkMainWindow (mappedBuffers_ w) (isCapturing_ w) (framesCaptured_ w) p
    (lastBufferTime_ w) (allocator_ w) (config_ w) (titleTimer_ w).

(** An [unsigned int] converted to [double]; the literal [1000.0]. *)
Definition double_of_uint32 (z : Z) : double := binary_normalize 53 1024 z 0 false.
Definition double_mul (x y : double) : double := SFmul 53 1024 x y.
Definition d1000 : double := double_of_uint32 1000.

(** [elapsed] is what [frameRateInterval_.elapsed()] answers, in
    milliseconds; it is stored in an [unsigned int].  The function returns the
    rate that is formatted into the window title. *)
Definition updateTitle (elapsed : Z) (w : MainWindow) : MainWindow * double :=
  let duration := wrap32 elapsed in
  let frames := wrap32 (framesCaptured_ w - previousFrames_ w) in
  let fps := double_div (double_mul (double_of_uint32 frames) d1000)
               (double_of_uint32 duration) in
  (set_previousFrames (framesCaptured_ w) w, fps).

(** ** The slots of the window, as the event loop calls them *)

Inductive Action : Type :=
| DoStart (env : StartEnv)
| DoStop (stop_ret : Z)
| DoComplete (env : CompleteEnv) (request : Request)
| DoUpdateTitle (elapsed : Z).

Definition step (a : Action) (w : MainWindow) : Outcome MainWindow :=
  match a with
  | DoStart env =>
    match startCapture env w with
    | Done (_, w', _) => Done w'
    | Undefined => Undefined
    end
  | DoStop stop_ret => Done (fst (stopCapture stop_ret w))
  | DoComplete env request =>
    match requestComplete env request w with
    | Done (w', _) => Done w'
    | Undefined => Undefined
    end
  | DoUpdateTitle elapsed => Done (fst (updateTitle elapsed w))
  end.

Fixpoint run (acts : list Action) (w : MainWindow) : Outcome MainWindow :=
  match acts with
  | [] => Done w
  | a :: rest =>
    match step a w with
    | Done w' => run rest w'
    | Undefined => Undefined
    end
  end.

(** Completions that are not cancelled arrive only while the window
    captures. *)
Fixpoint timely (acts : list Action) (w : MainWindow) : Prop :=
  match acts with
  | [] => True
  | a :: rest =>
    match a with
    | DoComplete _ request => cancelled request = true ∨ isCapturing_ w = true
    | _ => True
    end
    ∧ match step a w with
      | Done w' => timely rest w'
      | Undefined => True
      end
  end.

(** The counters stay within their types. *)
Definition counters_in_range (w : MainWindow) : Prop :=
  0 ≤ framesCaptured_ w < 2 ^ 32 ∧ 0 ≤ previousFrames_ w < 2 ^ 32.

(** ** The paths through [startCapture] *)

(** The events up to and including a successful [allocate]. *)
Definition prologue (env : StartEnv) : list Event :=
  [Configure (configure_ret env); SetFormat (setFormat_ret env);
   Allocate (allocate_ret env)].

(** The window when the first loop is entered, and when it has completed
    with the table [m]. *)
Definition w_allocated (w : MainWindow) : MainWindow :=
  set_allocator AllocLive (set_config true w).

Definition w_populated (m : gmap Z (Z * Z)) (w : MainWindow) : MainWindow :=
  set_titleTimer true (reset_counters (set_mappedBuffers m (w_allocated w))).

(** The five ways through the function: an early return, a jump to [error]
    from the first loop, from the [camera_->start()] call or from the second
    loop, and the return of 0. *)
Inductive StartPath (env : StartEnv) (w : MainWindow)
    : Z → MainWindow → list Event → Prop :=
| path_early ret w' tr :
    ret < 0 → allocated tr = false →
    mappedBuffers_ w' = mappedBuffers_ w → isCapturing_ w' = isCapturing_ w →
    titleTimer_ w' = titleTimer_ w →
    framesCaptured_ w' = framesCaptured_ w → previousFrames_ w' = previousFrames_ w →
    created tr = [] → camera_starts tr = [] → queue_calls tr = [] →
    StartPath env w ret w' tr
| path_populate ret rs m tr1 :
    populate env 0 (stream_buffers env) [] (mappedBuffers_ w) = GotoError ret rs m tr1 →
    StartPath env w ret (set_mappedBuffers ∅ (w_allocated w))
      (prologue env ++ tr1 ++ (DeleteRequest <$> rs) ++ unmapAll m)
| path_start rs m tr1 :
    populate env 0 (stream_buffers env) [] (mappedBuffers_ w) = Next rs m tr1 →
    start_ret env ≠ 0 →
    StartPath env w (start_ret env) (set_mappedBuffers ∅ (w_populated m w))
      (prologue env ++ tr1 ++ [CameraStart (start_ret env)]
         ++ (DeleteRequest <$> rs) ++ unmapAll m)
| path_queue rs m tr1 ret tr2 :
    populate env 0 (stream_buffers env) [] (mappedBuffers_ w) = Next rs m tr1 →
    start_ret env = 0 →
    queueAll env 0 rs = (Some ret, tr2) →
    StartPath env w ret (set_mappedBuffers ∅ (w_populated m w))
      (prologue env ++ tr1 ++ [CameraStart 0] ++ tr2
         ++ (DeleteRequest <$> rs) ++ unmapAll m)
| path_success rs m tr1 tr2 :
    populate env 0 (stream_buffers env) [] (mappedBuffers_ w) = Next rs m tr1 →
    start_ret env = 0 →
    queueAll env 0 rs = (None, tr2) →
    StartPath env w 0 (set_isCapturing true (w_populated m w))
      (prologue env ++ tr1 ++ [CameraStart 0] ++ tr2).

(** * The window and its camera *)

(** ** Data *)

Definition ENODEV : Z := 19.
Definition EBUSY : Z := 16.

(** A [std::shared_ptr<Camera>] that is not null: the camera object, by an
    identifier, and what its [name()] answers. *)
Record Camera : Type := mkCamera {
  camera_id : Z;
  camera_name : string
}.

(** The window of the previous part together with its member [camera_]
    ([None] for a null pointer). *)
Record App : Type := mkApp {
  window : MainWindow;
  camera_ : option Camera
}.

(** What the functions of this part do to the camera manager, the cameras
    and the application, besides what [startCapture] and [stopCapture] do
    ([Session]).  [Connect] and [Disconnect] are the calls of
    [requestCompleted.connect] and [requestCompleted.disconnect] with this
    window and [requestComplete]; [Quit] is the call of [quit()], which posts
    the end of the application to the event loop. *)
Inductive UiEvent : Type :=
| Session (e : Event)
| Dialog (items : list string) (answer : option string)
| Get (name : string) (found : option Camera)
| Acquire (cam : Z) (ret : Z)
| Release (cam : Z)
| Connect (cam : Z)
| Disconnect (cam : Z)
| Quit.

(** ** [MainWindow::chooseCamera] and [MainWindow::openCamera] *)

(** The answers during one call of [openCamera]: the camera option of the
    command line if it is set, the cameras of the manager, what the user
    picks in the dialog ([None] when the dialog is cancelled), what
    [cm->get] finds and what [acquire] returns. *)
Record OpenEnv : Type := mkOpenEnv {
  opt_camera : option string;
  cameras : list Camera;
  dialog_answer : option string;
  get : string → option Camera;
  acquire_ret : Z
}.

Definition chooseCamera (env : OpenEnv) : string * list UiEvent :=
  match cameras env with
  | [cam] => (camera_name cam, [])
  | cams =>
    let items := camera_name <$> cams in
    match dialog_answer env with
    | None => (""%string, [Dialog items None])
    | Some name => (name, [Dialog items (Some name)])
    end
  end.

Definition openCamera (env : OpenEnv) (a : App) : Z * App * list UiEvent :=
  let '(cameraName, tr) :=
    match opt_camera env with
    | Some name => (name, [])
    | None => chooseCamera env
    end in
  if decide (cameraName = ""%string) then (- EINVAL, a, tr)
  else
    match get env cameraName with
    | None => (- ENODEV, mkApp (window a) None, tr ++ [Get cameraName None])
    | Some cam =>
      let ret := acquire_ret env in
      if negb (ret =? 0) then
        (- EBUSY, mkApp (window a) None,
         tr ++ [Get cameraName (Some cam); Acquire (camera_id cam) ret])
      else
        (0, mkApp (window a) (Some cam),
         tr ++ [Get cameraName (Some cam); Acquire (camera_id cam) ret;
                Connect (camera_id cam)])
    end.

(** ** [MainWindow::setCamera] *)

(** The answers during one call of [setCamera]: what [acquire] of the chosen
    camera returns, what [camera_->stop()] returns if [stopCapture] asks, and
    the answers to the [startCapture] on the new camera. *)
Record SwitchEnv : Type := mkSwitchEnv {
  switch_acquire_ret : Z;
  switch_stop_ret : Z;
  switch_start : StartEnv
}.

(** [camera_->release()] through a null [camera_] is undefined.  The value of
    the final [startCapture] is dropped. *)
Definition setCamera (env : SwitchEnv) (cam : Camera) (a : App)
    : Outcome (Z * App * list UiEvent) :=
  let ret := switch_acquire_ret env in
  if negb (ret =? 0) then Done (- EBUSY, a, [Acquire (camera_id cam) ret])
  else
    let '(w1, tr_stop) := stopCapture (switch_stop_ret env) (window a) in
    match camera_ a with
    | None => Undefined
    | Some old =>
      match startCapture (switch_start env) w1 with
      | Undefined => Undefined
      | Done (_, w2, tr_start) =>
        Done (0, mkApp w2 (Some cam),
              [Acquire (camera_id cam) ret] ++ (Session <$> tr_stop)
                ++ [Release (camera_id old); Disconnect (camera_id old);
                    Connect (camera_id cam)]
                ++ (Session <$> tr_start))
      end
    end.

(** Camera switches one after the other. *)
Fixpoint switchAll (sws : list (SwitchEnv * Camera)) (a : App)
    : Outcome (App * list UiEvent) :=
  match sws with
  | [] => Done (a, [])
  | (env, cam) :: rest =>
    match setCamera env cam a with
    | Undefined => Undefined
    | Done (_, a1, tr1) =>
      match switchAll rest a1 with
      | Undefined => Undefined
      | Done (a2, tr2) => Done (a2, tr1 ++ tr2)
      end
    end
  end.

(** ** The constructor and the destructor *)

(** The part of the constructor after the widgets are set up: [openCamera],
    then [startCapture] if that returned 0, then [quit()] if the last value
    is negative.  [frames], [previous] and [last] are what the members that
    the initialiser list leaves out hold. *)
Definition construct (frames previous last : Z) (oenv : OpenEnv) (senv : StartEnv)
    : Outcome (App * list UiEvent) :=
  let '(ret, a, tr) := openCamera oenv (mkApp (initial frames previous last) None) in
  if ret =? 0 then
    match startCapture senv (window a) with
    | Undefined => Undefined
    | Done (ret, w, tr') =>
      Done (mkApp w (camera_ a),
            tr ++ (Session <$> tr') ++ (if ret <? 0 then [Quit] else []))
    end
  else Done (a, tr ++ (if ret <? 0 then [Quit] else [])).

(** [~MainWindow]. *)
Definition destroy (stop_ret : Z) (a : App) : App * list UiEvent :=
  match camera_ a with
  | None => (a, [])
  | Some cam =>
    let '(w, tr) := stopCapture stop_ret (window a) in
    (mkApp w None, (Session <$> tr) ++ [Release (camera_id cam)])
  end.

(** ** Reading a trace of this part *)

Definition session (tr : list UiEvent) : list Event :=
  flat_map (λ e, match e with Session e => [e] | _ => [] end) tr.

Definition quits (tr : list UiEvent) : nat :=
  length (flat_map (λ e, match e with Quit => [tt] | _ => [] end) tr).

(** Modelled from the spec: the camera class is not part of the sources at
    hand.  A camera has at most one acquirer ([acquire] that returns 0 makes
    the caller the acquirer until [release]), and a completion subscription
    stays attached until it is detached; the comment in [setCamera] adds that
    connecting again without disconnecting duplicates the connection.
    [held tr l] are the cameras that the application holds after [tr] when it
    held [l] before, and [connected tr l] the cameras whose completion signal
    is connected to the window, once per connection. *)
Definition held (tr : list UiEvent) (l : list Z) : list Z :=
  foldl (λ acc e,
           match e with
           | Acquire cam ret => if ret =? 0 then acc ++ [cam] else acc
           | Release cam => filter (λ c, c ≠ cam) acc
           | _ => acc
           end) l tr.

Definition connected (tr : list UiEvent) (l : list Z) : list Z :=
  foldl (λ acc e,
           match e with
           | Connect cam => acc ++ [cam]
           | Disconnect cam => filter (λ c, c ≠ cam) acc
           | _ => acc
           end) l tr.

Definition dialogs (tr : list UiEvent) : nat :=
  length (flat_map (λ e, match e with Dialog _ _ => [tt] | _ => [] end) tr).

(** The application holds exactly its camera and the window is connected
    exactly to it, once; it holds and is connected to nothing without one. *)
Definition linked (a : App) (h c : list Z) : Prop :=
  h = option_list (camera_id <$> camera_ a)
  ∧ c = option_list (camera_id <$> camera_ a).

(** No [acquire] of the camera that the window already has returns 0: a
    camera has one acquirer at a time. *)
Fixpoint exclusive (sws : list (SwitchEnv * Camera)) (a : App) : Prop :=
  match sws with
  | [] => True
  | (env, cam) :: rest =>
    (∀ old, camera_ a = Some old → camera_id cam = camera_id old →
            switch_acquire_ret env ≠ 0)
    ∧ match setCamera env cam a with
      | Done (_, a1, _) => exclusive rest a1
      | Undefined => True
      end
  end.

(** ** More sample sessions *)

Definition with_queueRequest (f : nat → Z) (env : StartEnv) : StartEnv :=
  mkStartEnv (validation env) (configure_ret env) (stream env) (setFormat_ret env)
    (allocate_ret env) (stream_buffers env) (createRequest_res env)
    (addBuffer_ret env) (mmap_ret env) (start_ret env) f.

Definition with_start (ret : Z) (env : StartEnv) : StartEnv :=
  mkStartEnv (validation env) (configure_ret env) (stream env) (setFormat_ret env)
    (allocate_ret env) (stream_buffers env) (createRequest_res env)
    (addBuffer_ret env) (mmap_ret env) ret (queueRequest_ret env).

(** Two buffers on descriptors 3 and 4, and two that share descriptor 3. *)
Definition two_buffers : list FrameBuffer := [buffer1 3; buffer1 4].
Definition shared_buffers : list FrameBuffer := [buffer1 3; buffer1 3].

(** The camera refuses the second request with [-EINVAL]. *)
Definition env_queue_fails : StartEnv :=
  with_queueRequest (λ i, if (i =? 0)%nat then 0 else -22) (cooperative two_buffers).

(** [camera_->start()] returns a positive value. *)
Definition env_start_positive : StartEnv := with_start 5 (cooperative two_buffers).

(** The events of a start that the collaborators grant, for [two_buffers]. *)
Definition tr_two : list Event :=
  [Configure 0; SetFormat 0; Allocate 0;
   CreateRequest (Some 100); AddBuffer 100 1 (buffer1 3) 0; Mmap 4096 3 65536;
   CreateRequest (Some 101); AddBuffer 101 1 (buffer1 4) 0; Mmap 4096 4 69632;
   CameraStart 0; QueueRequest 100 0; QueueRequest 101 0].

Definition w_two : MainWindow :=
  mkMainWindow {[3 := (65536, 4096); 4 := (69632, 4096)]} true 0 0 0 AllocLive true true.

(** A cancelled request. *)
Definition request_cancelled : Request :=
  mkRequest RequestCancelled [(1, mkFrameBuffer [mkPlane 3 4096 0] 0 0)].

(** Three completions in a row: a frame that is resubmitted, a cancelled
    request, and a two-plane frame for which the camera hands out no
    request. *)
Definition three_completions : list (CompleteEnv * Request) :=
  [(env_resubmit, request_one_plane 3 3 1000);
   (env_resubmit, request_cancelled);
   (env_no_request, request_two_planes)].

(** A window whose frame counter is about to wrap around. *)
Definition w_wrapping : MainWindow :=
  mkMainWindow {[3 := (65536, 4096)]} true 4294967295 4294967295 0 AllocLive true true.

(** Two cameras, and a manager that knows only the first. *)
Definition cam_a : Camera := mkCamera 1 "a".
Definition cam_b : Camera := mkCamera 2 "b".

Definition env_one_camera : OpenEnv :=
  mkOpenEnv None [cam_a] None
    (λ name, if decide (name = "a"%string) then Some cam_a else None) 0.

Definition switch_ok (env : StartEnv) : SwitchEnv := mkSwitchEnv 0 0 env.
Definition switch_busy : SwitchEnv := mkSwitchEnv (-16) 0 (cooperative two_buffers).

(** The events of the start that finds no second request, of the start that
    cannot queue the second request, and of the start on [shared_buffers]. *)
Definition tr_no_second_request : list Event :=
  [Configure 0; SetFormat 0; Allocate 0;
   CreateRequest (Some 100); AddBuffer 100 1 (buffer1 3) 0; Mmap 4096 3 65536;
   CreateRequest None; DeleteRequest 100; Munmap 65536 4096].

Definition tr_queue_fails : list Event :=
  [Configure 0; SetFormat 0; Allocate 0;
   CreateRequest (Some 100); AddBuffer 100 1 (buffer1 3) 0; Mmap 4096 3 65536;
   CreateRequest (Some 101); AddBuffer 101 1 (buffer1 4) 0; Mmap 4096 4 69632;
   CameraStart 0; QueueRequest 100 0; QueueRequest 101 (-22);
   DeleteRequest 100; DeleteRequest 101; Munmap 65536 4096; Munmap 69632 4096].

Definition tr_shared : list Event :=
  [Configure 0; SetFormat 0; Allocate 0;
   CreateRequest (Some 100); AddBuffer 100 1 (buffer1 3) 0; Mmap 4096 3 65536;
   CreateRequest (Some 101); AddBuffer 101 1 (buffer1 3) 0; Mmap 4096 3 69632;
   CameraStart 0; QueueRequest 100 0; QueueRequest 101 0].

Definition w_shared : MainWindow :=
  mkMainWindow {[3 := (69632, 4096)]} true 0 0 0 AllocLive true true.

(** The window after a start that failed once the camera was started. *)
Definition w_failed_late : MainWindow :=
  mkMainWindow ∅ false 0 0 0 AllocLive true true.

(** The window and the events after [three_completions] on [w_running]. *)
Definition w_three : MainWindow :=
  mkMainWindow {[3 := (65536, 4096)]} true 2 0 2000 AllocLive true true.

Definition tr_three : list Event :=
  [Log 0 3 1000 d0; Display 65536 3; CreateRequest (Some 200);
   AddBuffer 200 1 (mkFrameBuffer [mkPlane 3 4096 3] 0 1000) 0; QueueRequest 200 0;
   Log 9 3 2000 (frameRate 1000 2000); CreateRequest None].

(** The window and the events after one more frame on [w_wrapping]. *)
Definition w_wrapped : MainWindow :=
  mkMainWindow {[3 := (65536, 4096)]} true 0 4294967295 1000 AllocLive true true.

Definition tr_wrapped : list Event :=
  [Log 0 3 1000 d0; Display 65536 3; CreateRequest (Some 200);
   AddBuffer 200 1 (mkFrameBuffer [mkPlane 3 4096 3] 0 1000) 0; QueueRequest 200 0].

(** A start, a frame, a title update and a stop. *)
Definition short_session : list Action :=
  [DoStart (cooperative two_buffers);
   DoComplete env_resubmit (request_one_plane 3 3 1000);
   DoUpdateTitle 1000;
   DoStop 0].

(** From camera [cam_a] to [cam_b] and back. *)
Definition there_and_back : list (SwitchEnv * Camera) :=
  [(switch_ok (cooperative two_buffers), cam_b);
   (switch_ok (cooperative two_buffers), cam_a)].

(** Start is triggered again while the window captures from [two_buffers]:
    the mappings get fresh addresses. *)
Definition env_restart : StartEnv :=
  with_mmap (λ i, 131072 + 4096 * Z.of_nat i) (cooperative two_buffers).




(** * Properties *)

(** ** Traces *)

Lemma created_app tr1 tr2 : created (tr1 ++ tr2) = created tr1 ++ created tr2.
Proof. apply flat_map_app. Qed.

Lemma deleted_app tr1 tr2 : deleted (tr1 ++ tr2) = deleted tr1 ++ deleted tr2.
Proof. apply flat_map_app. Qed.

Lemma queued_app tr1 tr2 : queued (tr1 ++ tr2) = queued tr1 ++ queued tr2.
Proof. apply flat_map_app. Qed.

Lemma displayed_app tr1 tr2 : displayed (tr1 ++ tr2) = displayed tr1 ++ displayed tr2.
Proof. apply flat_map_app. Qed.

Lemma bind_failed_app tr1 tr2 :
  bind_failed (tr1 ++ tr2) = bind_failed tr1 || bind_failed tr2.
Proof. apply existsb_app. Qed.

Lemma deleted_DeleteRequest rs : deleted (DeleteRequest <$> rs) = rs.
Proof. induction rs as [|r rs IH]; csimpl; [done | by rewrite IH]. Qed.

Lemma created_DeleteRequest rs : created (DeleteRequest <$> rs) = [].
Proof. by induction rs. Qed.

Lemma bind_failed_DeleteRequest rs : bind_failed (DeleteRequest <$> rs) = false.
Proof. by induction rs. Qed.

Lemma created_unmapAll m : created (unmapAll m) = [].
Proof. unfold unmapAll. by induction (entries m). Qed.

Lemma deleted_unmapAll m : deleted (unmapAll m) = [].
Proof. unfold unmapAll. by induction (entries m). Qed.

Lemma bind_failed_unmapAll m : bind_failed (unmapAll m) = false.
Proof. unfold unmapAll. by induction (entries m). Qed.

Lemma unmapAll_empty : unmapAll ∅ = [].
Proof. unfold unmapAll, entries. by rewrite map_to_list_empty. Qed.

(** The regions are unmapped by increasing descriptor. *)
Lemma unmapAll_two :
  unmapAll {[7 := (8192, 10); 3 := (65536, 4096)]} = [Munmap 65536 4096; Munmap 8192 10].
Proof. vm_compute. reflexivity. Qed.

Lemma allocated_app tr1 tr2 : allocated (tr1 ++ tr2) = allocated tr1 || allocated tr2.
Proof. apply existsb_app. Qed.

Create Rewrite HintDb trace.
#[local] Hint Rewrite created_app deleted_app queued_app bind_failed_app
  deleted_DeleteRequest created_DeleteRequest bind_failed_DeleteRequest
  created_unmapAll deleted_unmapAll bind_failed_unmapAll
  @app_nil_r orb_false_r orb_false_l : trace.

(** ** The loops of [startCapture] *)

Section Loops.
Variable env : StartEnv.

(** A completed first loop has created one request per buffer, pushed each
    on [requests], and mapped the first plane of each buffer. *)
Lemma populate_Next bufs :
  ∀ i rs m rs' m' tr,
    populate env i bufs rs m = Next rs' m' tr →
    rs' = rs ++ created tr
    ∧ length (created tr) = length bufs
    ∧ deleted tr = [] ∧ queued tr = [] ∧ bind_failed tr = false
    ∧ dom m' = dom m ∪ list_to_set (first_fds bufs)
    ∧ length (first_fds bufs) = length bufs.
Proof.
  induction bufs as [|buffer rest IH]; intros i rs m rs' m' tr; simpl.
  - intros [= <- <- <-]. rewrite app_nil_r.
    repeat split; try done. by rewrite union_empty_r_L.
  - destruct (createRequest_res env i) as [request|]; [|done].
    destruct (addBuffer_ret env i <? 0) eqn:Hret; [done|].
    destruct (planes buffer) as [|plane ps] eqn:Hplanes; [done|].
    destruct (populate env (S i) rest (rs ++ [request]) _) as [rs1 m1 tr1| |] eqn:Hrec;
      simpl; [|done..].
    intros [= <- <- <-].
    apply IH in Hrec as (-> & Hlen & Hdel & Hq & Hbind & Hdom & Hfds).
    simpl. rewrite Hret, Hdel, Hq, Hlen, Hdom, Hbind, Hfds, <- app_assoc, dom_insert_L.
    repeat split; try done.
    by rewrite (comm_L (∪) {[plane_fd plane]} (dom m)), (assoc_L (∪)).
Qed.

(** A first loop that jumps to [error] does so with a negative [ret], after
    a failed [createRequest] or a failed [addBuffer]; in the second case the
    request just created is not on [requests]. *)
Lemma populate_GotoError bufs :
  ∀ i rs m ret rs' m' tr,
    populate env i bufs rs m = GotoError ret rs' m' tr →
    ret < 0 ∧ deleted tr = [] ∧ queued tr = []
    ∧ ((bind_failed tr = false ∧ rs' = rs ++ created tr)
       ∨ (bind_failed tr = true ∧ ∃ r, rs ++ created tr = rs' ++ [r])).
Proof.
  induction bufs as [|buffer rest IH]; intros i rs m ret rs' m' tr; simpl; [done|].
  destruct (createRequest_res env i) as [request|].
  - destruct (addBuffer_ret env i <? 0) eqn:Hret.
    + intros [= <- <- <- <-]. simpl. rewrite Hret. apply Z.ltb_lt in Hret.
      repeat split; try done. right. split; [done | by exists request].
    + destruct (planes buffer) as [|plane ps]; [done|].
      destruct (populate env (S i) rest (rs ++ [request]) _)
        as [|ret1 rs1 m1 tr1|] eqn:Hrec; simpl; [done| |done].
      intros [= <- <- <- <-].
      apply IH in Hrec as (Hneg & Hdel & Hq & Hcases).
      simpl. rewrite Hret, Hdel, Hq. repeat split; try done.
      destruct Hcases as [[Hnb ->] | [Hb [r Hr]]]; [left | right].
      * split; [done | by rewrite <- app_assoc].
      * split; [done | exists r; by rewrite <- Hr, <- app_assoc].
  - intros [= <- <- <- <-]. unfold ENOMEM. simpl. rewrite app_nil_r.
    repeat split; try done. by left.
Qed.

(** A completed second loop has queued every request, in order. *)
Lemma queueAll_None rs :
  ∀ i tr, queueAll env i rs = (None, tr) →
    queued tr = rs ∧ created tr = [] ∧ deleted tr = [] ∧ bind_failed tr = false.
Proof.
  induction rs as [|r rs IH]; intros i tr; simpl.
  - by intros [= <-].
  - destruct (queueRequest_ret env i <? 0) eqn:Hret; [done|].
    destruct (queueAll env (S i) rs) as [res tr1] eqn:Hrec.
    intros [= -> <-]. apply IH in Hrec as (Hq & Hc & Hd & Hb).
    simpl. by rewrite Hret, Hq.
Qed.

(** A second loop that stops early does so with the negative value of the
    failed [queueRequest]. *)
Lemma queueAll_Some rs :
  ∀ i ret tr, queueAll env i rs = (Some ret, tr) →
    ret < 0 ∧ created tr = [] ∧ deleted tr = [] ∧ bind_failed tr = false.
Proof.
  induction rs as [|r rs IH]; intros i ret tr; simpl; [done|].
  destruct (queueRequest_ret env i <? 0) eqn:Hret.
  - intros [= <- <-]. by apply Z.ltb_lt in Hret.
  - destruct (queueAll env (S i) rs) as [res tr1] eqn:Hrec.
    intros [= -> <-]. by apply IH in Hrec as (Hneg & Hc & Hd & Hb).
Qed.
End Loops.

(** ** The three ways [startCapture] returns *)

Lemma startCapture_inv env w ret w' tr :
  startCapture env w = Done (ret, w', tr) →
  returned_early w w' ret tr
  ∨ returned_unwound w w' ret tr
  ∨ returned_success env w w' ret tr.
Proof.
  unfold startCapture, unwind.
  assert (- EINVAL < 0) as Hinval by (unfold EINVAL; lia).
  destruct (validation env);
    [ | | intros [= <- <- <-]; left; by repeat split ].
  all: destruct (configure_ret env <? 0) eqn:Hc;
    [ intros [= <- <- <-]; apply Z.ltb_lt in Hc; left; by repeat split | ].
  all: destruct (setFormat_ret env <? 0) eqn:Hf;
    [ intros [= <- <- <-]; apply Z.ltb_lt in Hf; left; by repeat split | ].
  all: destruct (allocate_ret env <? 0) eqn:Ha;
    [ intros [= <- <- <-]; left; unfold returned_early; simpl; rewrite Ha;
      apply Z.ltb_lt in Ha; by repeat split | ].
  all: simpl;
    destruct (populate env 0 (stream_buffers env) [] (mappedBuffers_ w))
      as [rs m tr1 | ret1 rs m tr1 |] eqn:Hp; [ | | done ].
  all: try (apply populate_GotoError in Hp as (Hneg & Hdel & Hq & Hcases);
            simpl in Hcases; intros [= <- <- <-]; right; left;
            unfold returned_unwound; simpl; autorewrite with trace; simpl;
            rewrite Hdel, Ha;
            split; [lia|]; split; [done|]; split; [done|]; split; [|done];
            destruct Hcases as [[-> ->] | [-> [r Hr]]];
            [ by left | right; split; [done | by exists r] ]).
  all: apply populate_Next in Hp as (Hrs & Hlen & Hdel & Hq & Hnb & Hdom & Hfds);
    simpl in Hrs; subst rs.
  all: destruct (start_ret env =? 0) eqn:Hs; simpl.
  all: try (destruct (queueAll env 0 (created tr1)) as [[ret2|] tr2] eqn:Hq2;
            [ apply queueAll_Some in Hq2 as (Hneg & Hc2 & Hd2 & Hb2)
            | apply queueAll_None in Hq2 as (Hq2 & Hc2 & Hd2 & Hb2) ]).
  all: intros [= <- <- <-].
  all: unfold returned_unwound, returned_success; simpl;
    autorewrite with trace; simpl;
    rewrite ?Hdel, ?Hq, ?Hc2, ?Hd2, ?Hq2, ?Hnb, ?Hb2, ?Ha; autorewrite with trace; simpl.
  all: try (right; left; split; [ first [lia | by apply Z.eqb_neq] |];
            split; [done|]; split; [done|]; split; [by left | done]).
  all: right; right; by repeat split.
Qed.

(** ** Sample sessions *)

Lemma w_running_reached frames previous last :
  startCapture (cooperative [buffer1 3]) (initial frames previous last)
  = Done (0, w_running,
          [Configure 0; SetFormat 0; Allocate 0; CreateRequest (Some 100);
           AddBuffer 100 1 (buffer1 3) 0; Mmap 4096 3 65536; CameraStart 0;
           QueueRequest 100 0]).
Proof. vm_compute. reflexivity. Qed.

(** ** Failed starts *)

(** C1 (as amended).  A call of [startCapture] that returns an error leaves
    [isCapturing_] as it was; it leaves the table empty when it fails after
    the buffers were allocated (request creation, buffer binding, camera
    start, request queueing: the returns through [error]) and as it was when
    it fails before (invalid configuration, [configure], [setFormat],
    [allocate]: the early returns).  So when the window was not capturing and
    its table was empty at the call, the table is empty and the flag is false
    afterwards. *)
Theorem startCapture_failure_state env w ret w' tr :
  startCapture env w = Done (ret, w', tr) →
  ret ≠ 0 →
  isCapturing_ w' = isCapturing_ w
  ∧ mappedBuffers_ w' = (if allocated tr then ∅ else mappedBuffers_ w)
  ∧ (isCapturing_ w = false → mappedBuffers_ w = ∅ →
     mappedBuffers_ w' = ∅ ∧ isCapturing_ w' = false).
Proof.
  intros Hstart Hret.
  apply startCapture_inv in Hstart
    as [(_ & Hm & Hc & _ & _ & _ & _ & Ha) | [(_ & Hm & Hc & _ & Ha) | (Hz & _)]];
    [ | | done].
  - rewrite Hm, Hc, Ha. do 2 (split; [done|]). by intros -> ->.
  - rewrite Hm, Hc, Ha. do 2 (split; [done|]). by intros -> _.
Qed.

Lemma startCapture_failure_state_witness :
  mappedBuffers_ (mkMainWindow ∅ false 41 7 1234 AllocLive true false) = ∅
  ∧ isCapturing_ (mkMainWindow ∅ false 41 7 1234 AllocLive true false) = false.
Proof.
  destruct (startCapture_failure_state env_no_second_request w_constructed (-12)
              (mkMainWindow ∅ false 41 7 1234 AllocLive true false)
              [Configure 0; SetFormat 0; Allocate 0; CreateRequest (Some 100);
               AddBuffer 100 1 (buffer1 3) 0; Mmap 4096 3 65536; CreateRequest None;
               DeleteRequest 100; Munmap 65536 4096])
    as (_ & _ & Hfresh).
  - vm_compute. reflexivity.
  - discriminate.
  - apply Hfresh; reflexivity.
Defined.

(** C1 (as stated) fails: start is pressed while the window captures and the
    camera refuses [configure]; [startCapture] returns that error at once, the
    table still holds its mapping and [isCapturing_] is still true. *)
Lemma startCapture_failure_while_capturing :
  startCapture env_configure_rejected w_running
  = Done (-13, w_running, [Configure (-13)])
  ∧ -13 ≠ 0
  ∧ ¬ (mappedBuffers_ w_running = ∅ ∧ isCapturing_ w_running = false).
Proof.
  split; [vm_compute; reflexivity|]. split; [discriminate|].
  intros [_ Hcap]. discriminate Hcap.
Qed.

(** Every failure other than a failed [addBuffer] deletes each request it
    created; a failed [addBuffer] leaves exactly one request undeleted. *)
Lemma startCapture_failure_discards env w ret w' tr :
  startCapture env w = Done (ret, w', tr) →
  ret ≠ 0 →
  if bind_failed tr then ∃ r, created tr = deleted tr ++ [r]
  else created tr = deleted tr.
Proof.
  intros Hstart Hret.
  apply startCapture_inv in Hstart
    as [(_ & _ & _ & Hc & Hd & _ & Hb & _) | [(_ & _ & _ & Hcases & _) | (Hz & _)]];
    [ | | done].
  - by rewrite Hb, Hc, Hd.
  - by destruct Hcases as [[-> ?] | [-> ?]].
Qed.

(** C2, at the failing input.  When [addBuffer] fails for the second of two
    buffers, [startCapture] returns the error after deleting the first request
    only: request 101, created in the failing iteration, is never deleted.
    This holds on the window as constructed, whatever its uninitialised
    members hold. *)
Theorem startCapture_bind_failure_leaks_request frames previous last :
  startCapture env_bind_fails (initial frames previous last)
  = Done (-17, mkMainWindow ∅ false frames previous last AllocLive true false,
          [Configure 0; SetFormat 0; Allocate 0;
           CreateRequest (Some 100); AddBuffer 100 1 (buffer1 3) 0; Mmap 4096 3 65536;
           CreateRequest (Some 101); AddBuffer 101 1 (buffer1 4) (-17);
           DeleteRequest 100; Munmap 65536 4096])
  ∧ created [Configure 0; SetFormat 0; Allocate 0;
             CreateRequest (Some 100); AddBuffer 100 1 (buffer1 3) 0; Mmap 4096 3 65536;
             CreateRequest (Some 101); AddBuffer 101 1 (buffer1 4) (-17);
             DeleteRequest 100; Munmap 65536 4096] = [100; 101]
  ∧ deleted [Configure 0; SetFormat 0; Allocate 0;
             CreateRequest (Some 100); AddBuffer 100 1 (buffer1 3) 0; Mmap 4096 3 65536;
             CreateRequest (Some 101); AddBuffer 101 1 (buffer1 4) (-17);
             DeleteRequest 100; Munmap 65536 4096] = [100].
Proof. split; [vm_compute; reflexivity|]. by vm_compute. Qed.

(** ** Failed mappings *)

(** Nothing in the first loop looks at what [mmap] returned. *)
Lemma populate_ignores_mmap f env bufs :
  ∀ i rs m1 m2,
    flow_control (populate (with_mmap f env) i bufs rs m1)
    = flow_control (populate env i bufs rs m2).
Proof.
  induction bufs as [|buffer rest IH]; intros i rs m1 m2; simpl; [done|].
  destruct (createRequest_res env i) as [request|]; [|done].
  destruct (addBuffer_ret env i <? 0); [done|].
  destruct (planes buffer) as [|plane ps]; [done|].
  specialize (IH (S i) (rs ++ [request])
                (<[plane_fd plane := (f i, plane_length plane)]> m1)
                (<[plane_fd plane := (mmap_ret env i, plane_length plane)]> m2)).
  destruct (populate (with_mmap f env) _ _ _ _), (populate env _ _ _ _);
    simpl in *; congruence.
Qed.

Lemma queueAll_ignores_mmap f env rs :
  ∀ i, fst (queueAll (with_mmap f env) i rs) = fst (queueAll env i rs).
Proof.
  induction rs as [|r rs IH]; intros i; simpl; [done|].
  destruct (queueRequest_ret env i <? 0); [done|].
  specialize (IH (S i)).
  by destruct (queueAll (with_mmap f env) _ _), (queueAll env _ _).
Qed.

(** The value [startCapture] returns, and whether it returns, is the same
    whatever [mmap] answers: a failed mapping is never detected. *)
Lemma startCapture_ignores_mmap f env w :
  ret_of (startCapture (with_mmap f env) w) = ret_of (startCapture env w).
Proof.
  unfold startCapture, unwind. simpl.
  destruct (validation env); try done.
  all: destruct (configure_ret env <? 0); [done|].
  all: destruct (setFormat_ret env <? 0); [done|].
  all: destruct (allocate_ret env <? 0); [done|].
  all: simpl.
  all: pose proof (populate_ignores_mmap f env (stream_buffers env) 0 []
                     (mappedBuffers_ w) (mappedBuffers_ w)) as Hp.
  all: destruct (populate (with_mmap f env) _ _ _ _) as [rs1 ? ?|? rs1 ? ?|],
         (populate env _ _ _ _) as [rs2 ? ?|? rs2 ? ?|];
    simpl in Hp; try discriminate; try done.
  all: try by injection Hp as -> ->.
  all: injection Hp as ->.
  all: destruct (start_ret env =? 0); simpl; [|done].
  all: pose proof (queueAll_ignores_mmap f env rs2 0) as Hq.
  all: by destruct (queueAll (with_mmap f env) _ _) as [[?|] ?],
            (queueAll env _ _) as [[?|] ?]; simpl in Hq; try discriminate;
         try injection Hq as ->.
Qed.

(** C3, at the failing input.  When [mmap] fails for the only buffer,
    [startCapture] returns 0: the pair ([MAP_FAILED], 4096) is recorded in the
    table, nothing is unwound and the window is capturing.  This holds on the
    window as constructed, whatever its uninitialised members hold. *)
Theorem startCapture_records_failed_mapping frames previous last :
  startCapture env_mmap_fails (initial frames previous last)
  = Done (0, mkMainWindow {[3 := (MAP_FAILED, 4096)]} true 0 0 0 AllocLive true true,
          [Configure 0; SetFormat 0; Allocate 0;
           CreateRequest (Some 100); AddBuffer 100 1 (buffer1 3) 0;
           Mmap 4096 3 MAP_FAILED; CameraStart 0; QueueRequest 100 0]).
Proof. vm_compute. reflexivity. Qed.

(** ** Successful starts *)




(** Every buffer that a successful [startCapture] went through has the
    descriptor of its first plane in the table. *)
Lemma startCapture_maps_every_buffer env w w' tr buffer plane ps :
  startCapture env w = Done (0, w', tr) →
  In buffer (stream_buffers env) →
  planes buffer = plane :: ps →
  is_Some (mappedBuffers_ w' !! plane_fd plane).
Proof.
  intros Hstart Hin Hplanes.
  apply startCapture_inv in Hstart
    as [(Hneg & _) | [(Hnz & _) | (_ & _ & Hdom & _)]]; [lia | done | ].
  apply elem_of_dom. rewrite Hdom. apply elem_of_union_r, elem_of_list_to_set.
  apply list_elem_of_In, in_flat_map. exists buffer. split; [done|].
  rewrite Hplanes. by left.
Qed.

(** ** Stopping *)

(** C5.  A second [stopCapture] in a row changes nothing and does nothing,
    whatever the first one did; and on a window that is not capturing
    [stopCapture] changes nothing and does nothing. *)
Theorem stopCapture_idempotent ret1 ret2 w :
  stopCapture ret2 (fst (stopCapture ret1 w)) = (fst (stopCapture ret1 w), [])
  ∧ (isCapturing_ w = false → stopCapture ret1 w = (w, [])).
Proof.
  unfold stopCapture. split.
  - by destruct (isCapturing_ w) eqn:Hcap; simpl; [|rewrite Hcap].
  - by intros ->.
Qed.

Lemma stopCapture_idempotent_witness :
  stopCapture 0 (fst (stopCapture 0 w_running)) = (fst (stopCapture 0 w_running), [])
  ∧ stopCapture 0 w_constructed = (w_constructed, []).
Proof.
  split.
  - apply (stopCapture_idempotent 0 0 w_running).
  - apply (stopCapture_idempotent 0 0 w_constructed). reflexivity.
Defined.

(** What the first [stopCapture] of a capturing window does, for comparison. *)
Lemma stopCapture_running :
  stopCapture 0 w_running
  = (mkMainWindow ∅ false 0 0 0 AllocDeleted false false,
     [CameraStop 0; Munmap 65536 4096; DeleteAllocator]).
Proof. vm_compute. reflexivity. Qed.

(** ** Completions *)

(** C6.  A cancelled completion leaves the window as it is ([framesCaptured_]
    included) and performs no event: nothing is displayed, no request is
    created or queued. *)
Theorem requestComplete_cancelled env request w :
  status request = RequestCancelled →
  requestComplete env request w = Done (w, []).
Proof. unfold requestComplete. by intros ->. Qed.

Lemma requestComplete_cancelled_witness :
  requestComplete (mkCompleteEnv (Some 200) 0 0)
    (mkRequest RequestCancelled [(1, buffer1 3)]) w_running
  = Done (w_running, []).
Proof. apply requestComplete_cancelled. reflexivity. Defined.

Lemma displayed_resubmit env bufs : displayed (resubmit env bufs) = [].
Proof.
  unfold resubmit. destruct (createRequest_new env) as [r|]; [|done].
  simpl. rewrite displayed_app. simpl. rewrite app_nil_r. by induction bufs.
Qed.

Lemma display_multi_plane buffer w :
  (1 < length (planes buffer))%nat →
  display buffer w = Done (- EINVAL, w, []).
Proof.
  intros Hlen. unfold display.
  by destruct (Nat.eqb_spec (length (planes buffer)) 1); [lia|].
Qed.

Lemma display_single_plane buffer plane w entry :
  planes buffer = [plane] →
  mappedBuffers_ w !! plane_fd plane = Some entry →
  display buffer w = Done (0, w, [Display (fst entry) (plane_bytesused plane)]).
Proof.
  intros Hplanes Hentry. unfold display, subscript.
  rewrite Hplanes, Hentry. simpl. by destruct w.
Qed.

(** [display] itself never leaves the bounds of [planes()]. *)
Lemma display_defined buffer w : display buffer w ≠ Undefined.
Proof.
  unfold display.
  destruct (planes buffer) as [|plane [|plane' ps]]; simpl; [done| |done].
  by destruct (subscript _ _).
Qed.

(** C7 (as amended).  For a completion that is not cancelled: when the buffer
    has more than one plane, [display] answers [-EINVAL] without a call to the
    viewfinder, and the handler goes on to the resubmission; when the buffer
    has one plane with N bytes used, the handler makes exactly one call to the
    viewfinder, with N bytes, and the call starts at the start of the region
    that the table maps the descriptor of the plane to.  The resubmission
    asks the camera for a request; when it gets one, it adds every buffer of
    the completed request to it and queues it; when it gets none, it does
    nothing more. *)
Theorem requestComplete_display env request w st buffer rest plane0 ps :
  status request ≠ RequestCancelled →
  buffers request = (st, buffer) :: rest →
  planes buffer = plane0 :: ps →
  (ps ≠ [] →
   display buffer (count_frame (timestamp buffer) w)
   = Done (- EINVAL, count_frame (timestamp buffer) w, [])
   ∧ requestComplete env request w
     = Done (count_frame (timestamp buffer) w,
             log_line w buffer plane0 :: resubmit env (buffers request))
   ∧ displayed (log_line w buffer plane0 :: resubmit env (buffers request)) = [])
  ∧ (ps = [] →
     ∃ w' memory,
       requestComplete env request w
       = Done (w', log_line w buffer plane0
                     :: Display memory (plane_bytesused plane0)
                     :: resubmit env (buffers request))
       ∧ displayed (log_line w buffer plane0
                      :: Display memory (plane_bytesused plane0)
                      :: resubmit env (buffers request))
         = [(memory, plane_bytesused plane0)]
       ∧ (∀ region, mappedBuffers_ w !! plane_fd plane0 = Some region →
            memory = fst region ∧ w' = count_frame (timestamp buffer) w))
  ∧ (∀ r, createRequest_new env = Some r →
       resubmit env (buffers request)
       = CreateRequest (Some r)
           :: ((λ sb : StreamPtr * FrameBuffer,
                  AddBuffer r (fst sb) (snd sb) (addBuffer_new env)) <$> buffers request)
           ++ [QueueRequest r (queueRequest_new env)])
  ∧ (createRequest_new env = None →
     resubmit env (buffers request) = [CreateRequest None]).
Proof.
  intros Hstatus Hbufs Hplanes. split; [|split; [|split]].
  - intros Hps.
    assert (1 < length (planes buffer))%nat as Hlen.
    { rewrite Hplanes. destruct ps; [done | simpl; lia]. }
    split; [by apply display_multi_plane|].
    unfold requestComplete, log_line. rewrite Hbufs. cbv beta iota.
    rewrite Hplanes. cbv beta iota zeta.
    rewrite (display_multi_plane buffer _ Hlen).
    split; [by destruct (status request)|].
    simpl. by rewrite displayed_resubmit.
  - intros ->.
    unfold requestComplete, log_line. rewrite Hbufs. cbv beta iota.
    rewrite Hplanes. cbv beta iota zeta.
    unfold display. rewrite Hplanes. cbv beta iota zeta. simpl negb. cbv iota.
    unfold subscript. simpl mappedBuffers_.
    destruct (mappedBuffers_ w !! plane_fd plane0) as [entry|] eqn:Hentry.
    + eexists _, (fst entry). split; [by destruct (status request)|].
      split; [simpl; by rewrite displayed_resubmit|].
      intros region [= <-]. split; [done|]. by destruct w.
    + eexists _, nullptr. split; [by destruct (status request)|].
      split; [simpl; by rewrite displayed_resubmit|].
      by intros region.
  - intros r Hr. unfold resubmit. by rewrite Hr.
  - intros Hr. unfold resubmit. by rewrite Hr.
Qed.

Lemma requestComplete_display_witness :
  requestComplete env_resubmit request_two_planes w_running
  = Done (count_frame 2000 w_running,
          [Log 9 3 2000 d0; CreateRequest (Some 200);
           AddBuffer 200 1 (mkFrameBuffer [mkPlane 3 4096 3; mkPlane 4 2048 5] 9 2000) 0;
           QueueRequest 200 0])
  ∧ requestComplete env_resubmit (request_one_plane 3 3 2000) w_running
    = Done (count_frame 2000 w_running,
            [Log 0 3 2000 d0; Display 65536 3; CreateRequest (Some 200);
             AddBuffer 200 1 (mkFrameBuffer [mkPlane 3 4096 3] 0 2000) 0;
             QueueRequest 200 0]).
Proof.
  split.
  - destruct (requestComplete_display env_resubmit request_two_planes w_running 1
                (mkFrameBuffer [mkPlane 3 4096 3; mkPlane 4 2048 5] 9 2000) []
                (mkPlane 3 4096 3) [mkPlane 4 2048 5])
      as (Hmulti & _); [discriminate | reflexivity | reflexivity | ].
    destruct Hmulti as (_ & Hrun & _); [discriminate|].
    rewrite Hrun. vm_compute. reflexivity.
  - destruct (requestComplete_display env_resubmit (request_one_plane 3 3 2000)
                w_running 1 (mkFrameBuffer [mkPlane 3 4096 3] 0 2000) []
                (mkPlane 3 4096 3) [])
      as (_ & Hone & _); [discriminate | reflexivity | reflexivity | ].
    destruct Hone as (w' & memory & Hrun & _ & Hregion); [reflexivity|].
    destruct (Hregion (65536, 4096)) as [-> ->]; [reflexivity|].
    rewrite Hrun. vm_compute. reflexivity.
Defined.

(** C7 (as stated) fails: when the camera hands out no request, the handler
    stops after [createRequest]; for this two-plane completion nothing is
    displayed, and no request is created or queued either. *)
Lemma requestComplete_without_new_request :
  requestComplete env_no_request request_two_planes w_running
  = Done (count_frame 2000 w_running, [Log 9 3 2000 d0; CreateRequest None])
  ∧ created [Log 9 3 2000 d0; CreateRequest None] = []
  ∧ queued [Log 9 3 2000 d0; CreateRequest None] = [].
Proof. split; [vm_compute; reflexivity|]. by vm_compute. Qed.




(** C10.  The handler reads the first plane before [display] checks the plane
    count: for a completed buffer with at least one plane the handler returns,
    and [display] returns for any buffer; for a completion that is not
    cancelled and whose buffer has no plane the handler has undefined
    behaviour, although [display] alone would have answered [-EINVAL]. *)
Theorem requestComplete_first_plane_in_bounds env request w st buffer rest :
  buffers request = (st, buffer) :: rest →
  (planes buffer ≠ [] → ∃ w' tr, requestComplete env request w = Done (w', tr))
  ∧ display buffer w ≠ Undefined
  ∧ (status request ≠ RequestCancelled → planes buffer = [] →
     requestComplete env request w = Undefined
     ∧ display buffer w = Done (- EINVAL, w, [])).
Proof.
  intros Hbufs. split; [|split; [apply display_defined|]].
  - intros Hplanes. unfold requestComplete. rewrite Hbufs.
    destruct (planes buffer) as [|plane0 ps] eqn:Hp; [done|].
    pose proof (display_defined buffer (count_frame (timestamp buffer) w)) as Hd.
    destruct (display buffer _) as [[[ret w1] tr1]|]; [|done].
    destruct (status request); eauto.
  - intros Hstatus Hplanes. unfold requestComplete, display.
    rewrite Hbufs, Hplanes. by destruct (status request).
Qed.

Lemma requestComplete_first_plane_in_bounds_witness :
  (∃ w' tr, requestComplete env_resubmit (request_one_plane 3 3 2000) w_running
            = Done (w', tr))
  ∧ requestComplete env_resubmit (mkRequest RequestComplete [(1, mkFrameBuffer [] 0 0)])
      w_running = Undefined
  ∧ display (mkFrameBuffer [] 0 0) w_running = Done (- EINVAL, w_running, []).
Proof.
  split.
  - destruct (requestComplete_first_plane_in_bounds env_resubmit
                (request_one_plane 3 3 2000) w_running 1
                (mkFrameBuffer [mkPlane 3 4096 3] 0 2000) []) as (Hin & _);
      [reflexivity|].
    apply Hin. discriminate.
  - destruct (requestComplete_first_plane_in_bounds env_resubmit
                (mkRequest RequestComplete [(1, mkFrameBuffer [] 0 0)]) w_running 1
                (mkFrameBuffer [] 0 0) []) as (_ & _ & Hout);
      [reflexivity|].
    apply Hout; [discriminate | reflexivity].
Defined.

(** ** The frame rate *)

(** *** Conversion of a positive integer to [double] never gives zero *)

Lemma iter_pos_iter {A} (f : A → A) p : ∀ x, SpecFloat.iter_pos f p x = Pos.iter f x p.
Proof.
  induction p as [p IH|p IH|]; intros x; simpl; [|by rewrite !IH|done].
  by rewrite !IH, !Pos.iter_swap.
Qed.

Lemma shr_1_m r : 0 ≤ shr_m r → shr_m (shr_1 r) = Z.div2 (shr_m r).
Proof. destruct r as [[|[p|p|]|p] rb sb]; simpl; try done; lia. Qed.

Lemma shr_m_iter k : ∀ r,
  0 ≤ shr_m r → shr_m (SpecFloat.iter_pos shr_1 k r) = Z.shiftr (shr_m r) (Z.pos k).
Proof.
  intros r Hr. rewrite iter_pos_iter.
  change (Z.shiftr (shr_m r) (Z.pos k)) with (Pos.iter Z.div2 (shr_m r) k).
  revert r Hr. induction k as [|k IH] using Pos.peano_ind; intros r Hr.
  - simpl. by apply shr_1_m.
  - rewrite !Pos.iter_succ, shr_1_m, IH; [done..|].
    rewrite IH by done.
    change (Pos.iter Z.div2 (shr_m r) k) with (Z.shiftr (shr_m r) (Z.pos k)).
    by apply Z.shiftr_nonneg.
Qed.

Lemma digits2_pos_size p : digits2_pos p = Pos.size p.
Proof. induction p; simpl; congruence. Qed.

Lemma pow2_digits_le p : 2 ^ (Z.pos (digits2_pos p) - 1) ≤ Z.pos p.
Proof.
  rewrite digits2_pos_size.
  pose proof (Pos.size_le p) as H.
  apply Pos2Z.pos_le_pos in H. rewrite Pos2Z.inj_pow in H.
  replace (Z.pos (Pos.size p)) with (Z.succ (Z.pos (Pos.size p) - 1)) in H by lia.
  rewrite Z.pow_succ_r in H by lia. change (Z.pos p~0) with (2 * Z.pos p) in H.
  change (Z.pos 2) with 2 in H. lia.
Qed.

Lemma shr_record_of_loc_m m l : shr_m (shr_record_of_loc m l) = m.
Proof. by destruct l as [|[]]. Qed.

Lemma shr_fexp_pos m e l :
  emin 53 1024 ≤ e →
  0 < shr_m (fst (shr_fexp 53 1024 (Z.pos m) e l))
  ∧ emin 53 1024 ≤ snd (shr_fexp 53 1024 (Z.pos m) e l).
Proof.
  intros He. unfold shr_fexp, shr, fexp. simpl Zdigits2.
  pose proof (pow2_digits_le m) as Hm.
  set (d := Z.pos (digits2_pos m)) in *.
  destruct (Z.max (d + e - 53) (emin 53 1024) - e) as [|k|k] eqn:Hn; simpl;
    rewrite ?shr_record_of_loc_m; try (split; [done | lia]).
  rewrite shr_m_iter by (rewrite shr_record_of_loc_m; lia).
  rewrite shr_record_of_loc_m, Z.shiftr_div_pow2 by lia.
  split; [|lia].
  apply Z.div_str_pos. split; [by apply Z.pow_pos_nonneg|].
  etransitivity; [|exact Hm]. apply Z.pow_le_mono_r; lia.
Qed.

Lemma round_nearest_even_pos m l : 0 < m → 0 < round_nearest_even m l.
Proof. intros Hm. destruct l as [|[]]; simpl; try done; [by destruct (Z.even m); lia | lia]. Qed.

Lemma binary_round_aux_nonzero s m e l :
  emin 53 1024 ≤ e →
  double_is_zero (binary_round_aux 53 1024 s (Z.pos m) e l) = false.
Proof.
  intros He. unfold binary_round_aux.
  destruct (shr_fexp_pos m e l He) as [Hm1 He1].
  destruct (shr_fexp 53 1024 (Z.pos m) e l) as [mrs1 e1]. simpl in Hm1, He1.
  pose proof (round_nearest_even_pos (shr_m mrs1) (loc_of_shr_record mrs1) Hm1) as Hr.
  destruct (round_nearest_even (shr_m mrs1) (loc_of_shr_record mrs1)) as [|m2|m2];
    try done.
  destruct (shr_fexp_pos m2 e1 loc_Exact He1) as [Hm2 _].
  destruct (shr_fexp 53 1024 (Z.pos m2) e1 loc_Exact) as [mrs2 e2]. simpl in Hm2.
  destruct (shr_m mrs2); try done.
  by destruct (_ <=? _).
Qed.

Lemma double_of_uint64_nonzero z :
  0 < z → double_is_zero (double_of_uint64 z) = false.
Proof.
  intros Hz. destruct z as [|p|p]; try done.
  unfold double_of_uint64, binary_normalize, binary_round, shl_align.
  destruct (fexp 53 1024 (Z.pos (digits2_pos p) + 0) - 0) eqn:Hd;
    apply binary_round_aux_nonzero; unfold emin; try lia.
  unfold fexp, emin. lia.
Qed.

(** *** What the handler logs *)

(** One completion that is not cancelled stores its timestamp and logs the
    rate computed against the stored one. *)
Lemma requestComplete_logs_rate env request w w' tr st buffer rest :
  status request ≠ RequestCancelled →
  buffers request = (st, buffer) :: rest →
  requestComplete env request w = Done (w', tr) →
  lastBufferTime_ w' = timestamp buffer
  ∧ logged_fps tr = [frameRate (lastBufferTime_ w) (timestamp buffer)].
Proof.
  intros Hstatus Hbufs. unfold requestComplete. rewrite Hbufs.
  destruct (planes buffer) as [|plane0 ps] eqn:Hplanes;
    [by destruct (status request)|].
  assert (∃ ret trd m, display buffer (count_frame (timestamp buffer) w)
            = Done (ret, set_mappedBuffers m (count_frame (timestamp buffer) w), trd)
            ∧ logged_fps trd = []) as (ret & trd & m & -> & Htrd).
  { unfold display. rewrite Hplanes.
    destruct (negb _); [by exists (- EINVAL), [], (mappedBuffers_ w); destruct w|].
    destruct (subscript _ _) as [entry m]. by eexists _, _, m. }
  assert (logged_fps (resubmit env ((st, buffer) :: rest)) = []) as Hre.
  { unfold resubmit. destruct (createRequest_new env); [|done].
    simpl. unfold logged_fps. rewrite flat_map_app. simpl. rewrite app_nil_r.
    clear. by induction rest. }
  destruct (status request); try done.
  all: intros [= <- <-]; split; [done|].
  all: unfold log_line; simpl; unfold logged_fps in *;
    by rewrite flat_map_app, Htrd, Hre.
Qed.

Lemma frameRate_first ts : frameRate 0 ts = d0.
Proof. done. Qed.

Lemma frameRate_next t1 t2 :
  0 < t1 → t1 < t2 → t2 < 2 ^ 64 →
  frameRate t1 t2 = double_div d1e9 (double_of_uint64 (t2 - t1)).
Proof.
  intros H1 H12 H2. unfold frameRate, wrap64.
  rewrite Z.mod_small by lia.
  rewrite double_of_uint64_nonzero by lia.
  by destruct (Z.eqb_spec t1 0); [lia|].
Qed.

(** C8 (as amended).  Of two completions in a row that are not cancelled, with
    timestamps [0 < T1 < T2], the second logs the rate
    [1000000000.0 / (double)(T2 - T1)]; the first completion after a
    successful [startCapture] logs the rate [0.0]. *)
Theorem requestComplete_frame_rate
    env1 env2 request1 request2 w w1 tr1 w2 tr2 st1 b1 rest1 st2 b2 rest2 :
  status request1 ≠ RequestCancelled →
  buffers request1 = (st1, b1) :: rest1 →
  requestComplete env1 request1 w = Done (w1, tr1) →
  status request2 ≠ RequestCancelled →
  buffers request2 = (st2, b2) :: rest2 →
  requestComplete env2 request2 w1 = Done (w2, tr2) →
  (0 < timestamp b1 → timestamp b1 < timestamp b2 → timestamp b2 < 2 ^ 64 →
   logged_fps tr2
   = [double_div d1e9 (double_of_uint64 (timestamp b2 - timestamp b1))])
  ∧ (∀ envs w0 trs, startCapture envs w0 = Done (0, w, trs) → logged_fps tr1 = [d0]).
Proof.
  intros Hs1 Hb1 Hrun1 Hs2 Hb2 Hrun2.
  destruct (requestComplete_logs_rate _ _ _ _ _ _ _ _ Hs1 Hb1 Hrun1) as [Hlast1 Hlog1].
  destruct (requestComplete_logs_rate _ _ _ _ _ _ _ _ Hs2 Hb2 Hrun2) as [_ Hlog2].
  split.
  - intros H1 H12 H2. by rewrite Hlog2, Hlast1, frameRate_next.
  - intros envs w0 trs Hstart.
    apply startCapture_inv in Hstart
      as [(Hneg & _) | [(Hnz & _) | (_ & _ & _ & _ & _ & _ & _ & _ & Hlast)]];
      [lia | done | ].
    by rewrite Hlog1, Hlast.
Qed.

Lemma requestComplete_frame_rate_witness :
  logged_fps [Log 0 3 33334333 (double_div d1e9 (double_of_uint64 33333333));
              Display 65536 3; CreateRequest (Some 200);
              AddBuffer 200 1 (mkFrameBuffer [mkPlane 3 4096 3] 0 33334333) 0;
              QueueRequest 200 0]
  = [double_div d1e9 (double_of_uint64 (33334333 - 1000))]
  ∧ logged_fps [Log 0 3 1000 d0; Display 65536 3; CreateRequest (Some 200);
                AddBuffer 200 1 (mkFrameBuffer [mkPlane 3 4096 3] 0 1000) 0;
                QueueRequest 200 0]
    = [d0].
Proof.
  destruct (requestComplete_frame_rate env_resubmit env_resubmit
              (request_one_plane 3 3 1000) (request_one_plane 3 3 33334333)
              w_running (count_frame 1000 w_running)
              [Log 0 3 1000 d0; Display 65536 3; CreateRequest (Some 200);
               AddBuffer 200 1 (mkFrameBuffer [mkPlane 3 4096 3] 0 1000) 0;
               QueueRequest 200 0]
              (count_frame 33334333 (count_frame 1000 w_running))
              [Log 0 3 33334333 (double_div d1e9 (double_of_uint64 33333333));
               Display 65536 3; CreateRequest (Some 200);
               AddBuffer 200 1 (mkFrameBuffer [mkPlane 3 4096 3] 0 33334333) 0;
               QueueRequest 200 0]
              1 (mkFrameBuffer [mkPlane 3 4096 3] 0 1000) []
              1 (mkFrameBuffer [mkPlane 3 4096 3] 0 33334333) [])
    as (Hnext & Hfirst).
  - discriminate.
  - reflexivity.
  - vm_compute. reflexivity.
  - discriminate.
  - reflexivity.
  - vm_compute. reflexivity.
  - split.
    + apply Hnext; simpl; lia.
    + apply (Hfirst (cooperative [buffer1 3]) w_constructed
               [Configure 0; SetFormat 0; Allocate 0; CreateRequest (Some 100);
                AddBuffer 100 1 (buffer1 3) 0; Mmap 4096 3 65536; CameraStart 0;
                QueueRequest 100 0]).
      vm_compute. reflexivity.
Defined.

(** A frame every 33333333 ns is logged at 30.0000003 frames per second. *)
Lemma frameRate_30fps :
  frameRate 1000 33334333 = S754_finite false 8444249385762174 (-48).
Proof. vm_compute. reflexivity. Qed.

(** C8 (as stated) fails for [T1 = 0]: a stored timestamp of 0 stands for
    "no frame yet", so the completion at [T2 = 5] that follows one at
    [T1 = 0] logs [0.0], not [1000000000.0 / 5]. *)
Lemma requestComplete_rate_after_timestamp_zero :
  requestComplete env_resubmit (request_one_plane 3 3 0) w_running
  = Done (count_frame 0 w_running,
          [Log 0 3 0 d0; Display 65536 3; CreateRequest (Some 200);
           AddBuffer 200 1 (mkFrameBuffer [mkPlane 3 4096 3] 0 0) 0;
           QueueRequest 200 0])
  ∧ requestComplete env_resubmit (request_one_plane 3 3 5) (count_frame 0 w_running)
    = Done (count_frame 5 (count_frame 0 w_running),
            [Log 0 3 5 d0; Display 65536 3; CreateRequest (Some 200);
             AddBuffer 200 1 (mkFrameBuffer [mkPlane 3 4096 3] 0 5) 0;
             QueueRequest 200 0])
  ∧ 0 < 5
  ∧ d0 ≠ double_div d1e9 (double_of_uint64 (5 - 0)).
Proof.
  split; [vm_compute; reflexivity|]. split; [vm_compute; reflexivity|].
  split; [lia|]. vm_compute. discriminate.
Qed.

(** ** Idle windows hold no mapping *)

(** The windows reached from the constructor by [startCapture], [stopCapture]
    and completions that are cancelled or arrive while the window captures
    all satisfy [idle_clean]: whenever such a window is not capturing, its
    table is empty. *)
Lemma idle_clean_initial frames previous last :
  idle_clean (initial frames previous last).
Proof. by intros _. Qed.

Lemma startCapture_idle_clean env w ret w' tr :
  idle_clean w →
  startCapture env w = Done (ret, w', tr) →
  idle_clean w'.
Proof.
  unfold idle_clean. intros Hw Hstart.
  apply startCapture_inv in Hstart
    as [(_ & Hm & Hc & _) | [(_ & Hm & _) | (_ & Hc & _)]].
  - by rewrite Hm, Hc.
  - done.
  - by rewrite Hc.
Qed.

Lemma stopCapture_idle_clean ret w :
  idle_clean w → idle_clean (fst (stopCapture ret w)).
Proof.
  unfold idle_clean, stopCapture. intros Hw.
  destruct (isCapturing_ w) eqn:Hcap; simpl; [done|].
  by rewrite Hcap.
Qed.

Lemma requestComplete_isCapturing env request w w' tr :
  requestComplete env request w = Done (w', tr) →
  isCapturing_ w' = isCapturing_ w.
Proof.
  unfold requestComplete, display.
  destruct (buffers request) as [|[st buffer] rest];
    [by destruct (status request); try done; intros [= <- _]|].
  destruct (planes buffer) as [|plane0 ps];
    [by destruct (status request); try done; intros [= <- _]|].
  destruct (negb _); [by destruct (status request); intros [= <- _]|].
  destruct (subscript _ _) as [entry m].
  by destruct (status request); intros [= <- _].
Qed.

Lemma requestComplete_idle_clean env request w w' tr :
  isCapturing_ w = true ∨ status request = RequestCancelled →
  idle_clean w →
  requestComplete env request w = Done (w', tr) →
  idle_clean w'.
Proof.
  intros [Hcap | Hcancel] Hw Hrun.
  - apply requestComplete_isCapturing in Hrun. unfold idle_clean. congruence.
  - unfold requestComplete in Hrun. rewrite Hcancel in Hrun. by injection Hrun as <- _.
Qed.

(** * Properties of the rest of the window *)

(** ** Mappings made and undone *)

Lemma mmapped_app tr1 tr2 : mmapped (tr1 ++ tr2) = mmapped tr1 ++ mmapped tr2.
Proof. apply flat_map_app. Qed.

Lemma munmapped_app tr1 tr2 : munmapped (tr1 ++ tr2) = munmapped tr1 ++ munmapped tr2.
Proof. apply flat_map_app. Qed.

Lemma camera_stops_app tr1 tr2 :
  camera_stops (tr1 ++ tr2) = camera_stops tr1 ++ camera_stops tr2.
Proof. apply flat_map_app. Qed.

Lemma camera_starts_app tr1 tr2 :
  camera_starts (tr1 ++ tr2) = camera_starts tr1 ++ camera_starts tr2.
Proof. apply flat_map_app. Qed.

Lemma queue_calls_app tr1 tr2 :
  queue_calls (tr1 ++ tr2) = queue_calls tr1 ++ queue_calls tr2.
Proof. apply flat_map_app. Qed.

Lemma mmapped_DeleteRequest rs : mmapped (DeleteRequest <$> rs) = [].
Proof. by induction rs. Qed.

Lemma munmapped_DeleteRequest rs : munmapped (DeleteRequest <$> rs) = [].
Proof. by induction rs. Qed.

Lemma camera_stops_DeleteRequest rs : camera_stops (DeleteRequest <$> rs) = [].
Proof. by induction rs. Qed.

Lemma queue_calls_DeleteRequest rs : queue_calls (DeleteRequest <$> rs) = [].
Proof. by induction rs. Qed.

Lemma mmapped_unmapAll m : mmapped (unmapAll m) = [].
Proof. unfold unmapAll. by induction (entries m). Qed.

Lemma camera_stops_unmapAll m : camera_stops (unmapAll m) = [].
Proof. unfold unmapAll. by induction (entries m). Qed.

Lemma queue_calls_unmapAll m : queue_calls (unmapAll m) = [].
Proof. unfold unmapAll. by induction (entries m). Qed.

Lemma munmapped_unmapAll m : munmapped (unmapAll m) = snd <$> entries m.
Proof.
  unfold unmapAll. induction (entries m) as [|[k [mem len]] l IH]; csimpl; [done|].
  by rewrite IH.
Qed.

Lemma entries_Permutation m : entries m ≡ₚ map_to_list m.
Proof. unfold entries. apply merge_sort_Permutation. Qed.

Lemma record_mappings_snoc l kv m :
  record_mappings (l ++ [kv]) m = <[fst kv := snd kv]> (record_mappings l m).
Proof. unfold record_mappings. by rewrite foldl_app. Qed.

Lemma record_mappings_cons kv l m :
  record_mappings (kv :: l) m = record_mappings l (<[fst kv := snd kv]> m).
Proof. done. Qed.

Lemma record_mappings_lookup_other l m k :
  k ∉ l.*1 → record_mappings l m !! k = m !! k.
Proof.
  revert m. induction l as [|[k' v] l IH]; intros m Hk; [done|].
  rewrite record_mappings_cons, IH by set_solver.
  apply lookup_insert_ne. set_solver.
Qed.

(** With pairwise distinct descriptors, none of them in the table yet, the
    table gains exactly the mappings made. *)
Lemma record_mappings_to_list l m :
  NoDup (l.*1) → (∀ k, k ∈ l.*1 → m !! k = None) →
  map_to_list (record_mappings l m) ≡ₚ l ++ map_to_list m.
Proof.
  revert m. induction l as [|[k v] l IH]; intros m Hnd Hfresh; [done|].
  apply NoDup_cons in Hnd as [Hk Hnd].
  rewrite record_mappings_cons, IH; [|done|].
  - rewrite map_to_list_insert by (apply Hfresh; set_solver).
    simpl. by rewrite Permutation_middle.
  - intros k' Hk'. rewrite lookup_insert_ne by set_solver. apply Hfresh. set_solver.
Qed.

Section Mappings.
Variable env : StartEnv.

(** The first loop records in the table the mappings it makes, in order, for
    the buffers it gets through. *)
Lemma populate_mappings bufs :
  ∀ i rs m,
    match populate env i bufs rs m with
    | Next _ m' tr =>
      m' = record_mappings (mmapped tr) m ∧ (mmapped tr).*1 = first_fds bufs
      ∧ munmapped tr = [] ∧ camera_stops tr = [] ∧ camera_starts tr = []
      ∧ queue_calls tr = []
    | GotoError _ _ m' tr =>
      m' = record_mappings (mmapped tr) m ∧ (mmapped tr).*1 `prefix_of` first_fds bufs
      ∧ munmapped tr = [] ∧ camera_stops tr = [] ∧ camera_starts tr = []
      ∧ queue_calls tr = []
    | Fault => True
    end.
Proof.
  induction bufs as [|buffer rest IH]; intros i rs m; simpl; [done|].
  destruct (createRequest_res env i) as [request|];
    [|by repeat split; try done; apply prefix_nil].
  destruct (addBuffer_ret env i <? 0);
    [by repeat split; try done; apply prefix_nil|].
  destruct (planes buffer) as [|plane ps]; [done|].
  specialize (IH (S i) (rs ++ [request])
                (<[plane_fd plane := (mmap_ret env i, plane_length plane)]> m)).
  destruct (populate env (S i) rest _ _) as [rs1 m1 tr1|ret1 rs1 m1 tr1|];
    simpl; [| |done].
  - destruct IH as (-> & Hfds & -> & -> & -> & ->).
    repeat split; try done. by f_equal.
  - destruct IH as (-> & Hfds & -> & -> & -> & ->).
    repeat split; try done. by apply prefix_cons.
Qed.

Lemma queueAll_mappings rs :
  ∀ i, mmapped (snd (queueAll env i rs)) = []
       ∧ munmapped (snd (queueAll env i rs)) = []
       ∧ camera_stops (snd (queueAll env i rs)) = []
       ∧ camera_starts (snd (queueAll env i rs)) = [].
Proof.
  induction rs as [|r rs IH]; intros i; simpl; [done|].
  destruct (queueRequest_ret env i <? 0); [done|].
  specialize (IH (S i)). by destruct (queueAll env (S i) rs).
Qed.
End Mappings.

Create Rewrite HintDb regions.
#[local] Hint Rewrite mmapped_app munmapped_app camera_stops_app camera_starts_app
  queue_calls_app mmapped_DeleteRequest munmapped_DeleteRequest
  camera_stops_DeleteRequest queue_calls_DeleteRequest mmapped_unmapAll
  camera_stops_unmapAll queue_calls_unmapAll munmapped_unmapAll allocated_app
  @app_nil_r : regions.

(** What a call of [startCapture] that returns has mapped and unmapped. *)
Lemma startCapture_mappings env w ret w' tr :
  startCapture env w = Done (ret, w', tr) →
  (mmapped tr).*1 `prefix_of` first_fds (stream_buffers env)
  ∧ camera_stops tr = []
  ∧ (if allocated tr then
       if ret =? 0 then
         mappedBuffers_ w' = record_mappings (mmapped tr) (mappedBuffers_ w)
         ∧ munmapped tr = []
         ∧ (mmapped tr).*1 = first_fds (stream_buffers env)
       else
         munmapped tr
         = snd <$> entries (record_mappings (mmapped tr) (mappedBuffers_ w))
     else mmapped tr = [] ∧ munmapped tr = []).
Proof.
  unfold startCapture, unwind.
  destruct (validation env);
    [ | | by intros [= <- <- <-]; repeat split; try done; apply prefix_nil ].
  all: destruct (configure_ret env <? 0) eqn:Hc;
    [ by intros [= <- <- <-]; repeat split; try done; apply prefix_nil | ].
  all: destruct (setFormat_ret env <? 0) eqn:Hf;
    [ by intros [= <- <- <-]; repeat split; try done; apply prefix_nil | ].
  all: destruct (allocate_ret env <? 0) eqn:Ha;
    [ intros [= <- <- <-]; simpl; rewrite Ha;
      by repeat split; try done; apply prefix_nil | ].
  all: simpl;
    pose proof (populate_mappings env (stream_buffers env) 0 [] (mappedBuffers_ w)) as Hp;
    pose proof (populate_GotoError env (stream_buffers env) 0 [] (mappedBuffers_ w)) as Hneg;
    destruct (populate env 0 (stream_buffers env) [] (mappedBuffers_ w))
      as [rs m tr1 | ret1 rs m tr1 |]; [ | | done ].
  all: destruct Hp as (-> & Hfds & Hun & Hst & Hcs & Hqc).
  all: try (specialize (Hneg _ _ _ _ eq_refl) as (Hneg & _);
            intros [= <- <- <-]; simpl; autorewrite with regions; simpl;
            rewrite Ha, Hun, Hst; simpl;
            destruct (Z.eqb_spec ret1 0); [lia|]; by repeat split).
  all: clear Hneg.
  all: pose proof (queueAll_mappings env rs 0) as (Hqm & Hqu & Hqs & _).
  all: pose proof (queueAll_Some env rs 0) as Hqneg.
  all: destruct (start_ret env =? 0) eqn:Hs; simpl.
  all: try (destruct (queueAll env 0 rs) as [[ret2|] tr2];
            [ specialize (Hqneg _ _ eq_refl) as (Hqneg & _) | ]; simpl in Hqm, Hqu, Hqs).
  all: intros [= <- <- <-]; simpl; autorewrite with regions; simpl;
    rewrite ?Ha, ?Hun, ?Hst, ?Hqm, ?Hqu, ?Hqs; simpl; autorewrite with regions.
  all: try (destruct (Z.eqb_spec ret2 0); [lia|]).
  all: rewrite ?Hs; simpl.
  all: repeat split; try done; by rewrite Hfds.
Qed.

Lemma record_mappings_lookup_last l m j k v :
  l !! j = Some (k, v) →
  k ∉ (drop (S j) l).*1 →
  record_mappings l m !! k = Some v.
Proof.
  intros Hj Hlast.
  rewrite <- (take_drop_middle l j (k, v) Hj).
  unfold record_mappings. rewrite foldl_app. simpl.
  fold (record_mappings (drop (S j) l)
          (<[k:=v]> (foldl (λ acc kv, <[kv.1:=kv.2]> acc) m (take j l)))).
  rewrite record_mappings_lookup_other by done.
  apply lookup_insert_eq.
Qed.

(** A completed first loop has made, for the j-th buffer, the mapping of its
    first plane to what the j-th [mmap] returned. *)
Lemma populate_Next_mmapped env bufs :
  ∀ i rs m rs' m' tr,
    populate env i bufs rs m = Next rs' m' tr →
    length (mmapped tr) = length bufs
    ∧ ∀ j buffer, bufs !! j = Some buffer →
        ∃ plane ps, planes buffer = plane :: ps
          ∧ mmapped tr !! j
            = Some (plane_fd plane, (mmap_ret env (i + j), plane_length plane)).
Proof.
  induction bufs as [|buffer rest IH]; intros i rs m rs' m' tr; simpl.
  - intros [= <- <- <-]. split; [done|]. by intros j b.
  - destruct (createRequest_res env i) as [request|]; [|done].
    destruct (addBuffer_ret env i <? 0); [done|].
    destruct (planes buffer) as [|plane ps] eqn:Hplanes; [done|].
    destruct (populate env (S i) rest (rs ++ [request]) _) as [rs1 m1 tr1| |] eqn:Hrec;
      simpl; [|done..].
    intros [= <- <- <-]. apply IH in Hrec as [Hlen Hidx]. simpl.
    split; [by rewrite Hlen|].
    intros [|j] b Hb; simpl in Hb.
    + injection Hb as <-. exists plane, ps. by rewrite Nat.add_0_r.
    + destruct (Hidx j b Hb) as (p & ps' & Hp & Hm). exists p, ps'.
      split; [done|]. simpl. by rewrite Hm, Nat.add_succ_r.
Qed.

(** The mappings and the requests of a call that returned 0. *)
Lemma startCapture_success_mmapped env w w' tr :
  startCapture env w = Done (0, w', tr) →
  length (mmapped tr) = length (stream_buffers env)
  ∧ ∀ j buffer, stream_buffers env !! j = Some buffer →
      ∃ plane ps, planes buffer = plane :: ps
        ∧ mmapped tr !! j
          = Some (plane_fd plane, (mmap_ret env j, plane_length plane)).
Proof.
  unfold startCapture, unwind.
  assert (- EINVAL ≠ 0) as Hinval by (unfold EINVAL; lia).
  destruct (validation env); [ | | by intros [= ? _ _] ].
  all: destruct (Z.ltb_spec (configure_ret env) 0); [by intros [= ? _ _]; lia|].
  all: destruct (Z.ltb_spec (setFormat_ret env) 0); [by intros [= ? _ _]; lia|].
  all: destruct (Z.ltb_spec (allocate_ret env) 0); [by intros [= ? _ _]; lia|].
  all: simpl;
    pose proof (populate_Next_mmapped env (stream_buffers env) 0 [] (mappedBuffers_ w)) as Hp;
    pose proof (populate_GotoError env (stream_buffers env) 0 [] (mappedBuffers_ w)) as Hneg;
    destruct (populate env 0 (stream_buffers env) [] (mappedBuffers_ w))
      as [rs m tr1 | ret1 rs m tr1 |]; [ | | done ].
  all: try (specialize (Hneg _ _ _ _ eq_refl) as (Hneg & _); intros [= ? _ _]; lia).
  all: specialize (Hp _ _ _ eq_refl) as [Hlen Hidx]; clear Hneg.
  all: pose proof (queueAll_mappings env rs 0) as (Hqm & _).
  all: pose proof (queueAll_Some env rs 0) as Hqneg.
  all: destruct (Z.eqb_spec (start_ret env) 0); simpl; [|by intros [= ? _ _]].
  all: destruct (queueAll env 0 rs) as [[ret2|] tr2];
    [ specialize (Hqneg _ _ eq_refl) as (Hqneg & _); intros [= ? _ _]; lia | ].
  all: intros [= <- <-]; simpl in *; autorewrite with regions; simpl.
  all: by rewrite Hqm, app_nil_r.
Qed.

(** The table after the mappings of a completed first loop were recorded,
    read at the descriptor of the j-th buffer. *)
Lemma record_mappings_lookup_buffer env (bufs : list FrameBuffer) l m j buffer plane ps :
  length l = length bufs →
  (∀ j buffer, bufs !! j = Some buffer →
     ∃ plane ps, planes buffer = plane :: ps
       ∧ l !! j = Some (plane_fd plane, (mmap_ret env j, plane_length plane))) →
  bufs !! j = Some buffer →
  planes buffer = plane :: ps →
  (∀ j' buffer' plane' ps',
     (j < j')%nat → bufs !! j' = Some buffer' →
     planes buffer' = plane' :: ps' → plane_fd plane' ≠ plane_fd plane) →
  record_mappings l m !! plane_fd plane = Some (mmap_ret env j, plane_length plane).
Proof.
  intros Hlen Hidx Hj Hplanes Hlater.
  destruct (Hidx j buffer Hj) as (p & ps0 & Hp & Hm).
  rewrite Hplanes in Hp. injection Hp as <- <-.
  apply (record_mappings_lookup_last _ _ j); [done|].
  intros Hin. apply list_elem_of_fmap in Hin as ([k v] & Hk & Hin). simpl in Hk.
  apply list_elem_of_lookup in Hin as [j' Hj'].
  rewrite lookup_drop in Hj'.
  assert (S j + j' < length bufs)%nat as Hlt.
  { rewrite <- Hlen. by eapply lookup_lt_Some. }
  apply lookup_lt_is_Some in Hlt as [b' Hb'].
  destruct (Hidx _ _ Hb') as (p' & ps' & Hp' & Hm').
  rewrite Hm' in Hj'. injection Hj' as <- <-.
  apply (Hlater (S j + j')%nat b' p' ps'); [lia|done..].
Qed.

(** X1.  After a call of [startCapture] that returned 0, the table maps the
    first-plane descriptor of the j-th allocated buffer to the address that
    the j-th [mmap] returned and the length of that plane, unless a later
    buffer has the same first-plane descriptor. *)
Theorem startCapture_table_lookup env w w' tr j buffer plane ps :
  startCapture env w = Done (0, w', tr) →
  stream_buffers env !! j = Some buffer →
  planes buffer = plane :: ps →
  (∀ j' buffer' plane' ps',
     (j < j')%nat → stream_buffers env !! j' = Some buffer' →
     planes buffer' = plane' :: ps' → plane_fd plane' ≠ plane_fd plane) →
  mappedBuffers_ w' !! plane_fd plane = Some (mmap_ret env j, plane_length plane).
Proof.
  intros Hstart Hj Hplanes Hlater.
  destruct (startCapture_success_mmapped _ _ _ _ Hstart) as [Hlen Hidx].
  destruct (startCapture_mappings _ _ _ _ _ Hstart) as (_ & _ & Hcases).
  destruct (allocated tr).
  - simpl in Hcases. destruct Hcases as (-> & _ & _).
    by apply (record_mappings_lookup_buffer env (stream_buffers env) _ _ j buffer plane ps).
  - destruct Hcases as [Hnil _].
    destruct (Hidx j buffer Hj) as (p & ps0 & Hp & Hm). by rewrite Hnil in Hm.
Qed.

(** ** The paths through [startCapture] *)

Lemma startCapture_path env w ret w' tr :
  startCapture env w = Done (ret, w', tr) →
  StartPath env w ret w' tr.
Proof.
  unfold startCapture, unwind.
  assert (- EINVAL < 0) as Hinval by (unfold EINVAL; lia).
  destruct (validation env);
    [ | | by intros [= <- <- <-]; apply path_early ].
  all: destruct (Z.ltb_spec (configure_ret env) 0);
    [ by intros [= <- <- <-]; apply path_early | ].
  all: destruct (Z.ltb_spec (setFormat_ret env) 0);
    [ by intros [= <- <- <-]; apply path_early | ].
  all: destruct (allocate_ret env <? 0) eqn:Ha;
    [ intros [= <- <- <-]; apply path_early; try done;
      [ by apply Z.ltb_lt | by simpl; rewrite Ha ] | ].
  all: simpl.
  all: destruct (populate env 0 (stream_buffers env) [] (mappedBuffers_ w))
      as [rs m tr1 | ret1 rs m tr1 |] eqn:Hp; [ | | done ].
  all: try (intros [= <- <- <-]; by apply (path_populate env w ret1 rs m tr1)).
  all: destruct (Z.eqb_spec (start_ret env) 0) as [Hs|Hs]; simpl.
  all: try (intros [= <- <- <-];
            change ([Configure (configure_ret env); SetFormat (setFormat_ret env);
                     Allocate (allocate_ret env)] ++ tr1)
              with (prologue env ++ tr1);
            rewrite <- !app_assoc;
            by apply (path_start env w rs m tr1)).
  all: destruct (queueAll env 0 rs) as [[ret2|] tr2] eqn:Hq.
  all: intros [= <- <- <-].
  all: change ([Configure (configure_ret env); SetFormat (setFormat_ret env);
                Allocate (allocate_ret env)] ++ tr1)
         with (prologue env ++ tr1);
    rewrite Hs, <- !app_assoc.
  all: first [ by apply (path_queue env w rs m tr1 ret2 tr2)
             | by apply (path_success env w rs m tr1 tr2) ].
Qed.

Lemma NoDup_prefix {A} (l1 l2 : list A) : l1 `prefix_of` l2 → NoDup l2 → NoDup l1.
Proof. intros [k ->] Hnd. by apply NoDup_app in Hnd as [? _]. Qed.

(** The regions that [unmapAll] unmaps after mappings with pairwise distinct
    descriptors were recorded in an empty table are the regions mapped. *)
Lemma entries_record_mappings l :
  NoDup (l.*1) → (entries (record_mappings l ∅)).*2 ≡ₚ l.*2.
Proof.
  intros Hnd. rewrite entries_Permutation.
  rewrite record_mappings_to_list by (done || by intros; apply lookup_empty).
  by rewrite map_to_list_empty, app_nil_r.
Qed.

Lemma startCapture_success_path env w w' tr :
  startCapture env w = Done (0, w', tr) →
  ∃ rs m tr1 tr2,
    populate env 0 (stream_buffers env) [] (mappedBuffers_ w) = Next rs m tr1
    ∧ start_ret env = 0
    ∧ queueAll env 0 rs = (None, tr2)
    ∧ w' = set_isCapturing true (w_populated m w)
    ∧ tr = prologue env ++ tr1 ++ [CameraStart 0] ++ tr2.
Proof.
  intros Hstart. apply startCapture_path in Hstart.
  inversion Hstart as [ ? ? ? Hneg | ? rs m tr1 Hp | rs m tr1 Hp Hs
                      | rs m tr1 ? tr2 Hp Hs Hq | rs m tr1 tr2 Hp Hs Hq ]; subst.
  - lia.
  - apply populate_GotoError in Hp as (? & _). lia.
  - congruence.
  - apply queueAll_Some in Hq as (? & _). lia.
  - by exists rs, m, tr1, tr2.
Qed.

Lemma size_list_to_set_dup (l : list Z) :
  ¬ NoDup l → (size (list_to_set l : gset Z) < length l)%nat.
Proof.
  assert (∀ l' : list Z, (size (list_to_set l' : gset Z) ≤ length l')%nat) as Hle.
  { induction l' as [|y l' IH]; [done|]. simpl.
    rewrite size_union_alt, size_singleton.
    pose proof (subseteq_size (list_to_set l' ∖ {[y]}) (list_to_set l' : gset Z)
                  ltac:(apply subseteq_difference_l; done)). lia. }
  induction l as [|x l IH]; intros Hdup; [by destruct Hdup; constructor|].
  simpl. destruct (decide (x ∈ l)) as [Hin|Hnin].
  - rewrite (subseteq_union_1_L {[x]} (list_to_set l)).
    + specialize (Hle l). lia.
    + apply singleton_subseteq_l. by apply elem_of_list_to_set.
  - assert (¬ NoDup l) as Hl by (intros Hl; apply Hdup; by constructor).
    specialize (IH Hl). rewrite size_union_alt, size_singleton.
    pose proof (subseteq_size (list_to_set l ∖ {[x]}) (list_to_set l : gset Z)
                  ltac:(apply subseteq_difference_l; done)). lia.
Qed.

(** X2.  After a call of [startCapture] that returned 0, the completion of a
    single-plane buffer on the first-plane descriptor of the j-th allocated
    buffer, not shared with a later buffer, hands the viewfinder the address
    that the j-th [mmap] returned and the bytes-used count of the completed
    plane, and leaves the table as it is. *)
Theorem start_then_complete_displays_mapping
    env w w' tr j buffer plane ps cenv request st cbuffer rest cplane :
  startCapture env w = Done (0, w', tr) →
  stream_buffers env !! j = Some buffer →
  planes buffer = plane :: ps →
  (∀ j' buffer' plane' ps',
     (j < j')%nat → stream_buffers env !! j' = Some buffer' →
     planes buffer' = plane' :: ps' → plane_fd plane' ≠ plane_fd plane) →
  status request ≠ RequestCancelled →
  buffers request = (st, cbuffer) :: rest →
  planes cbuffer = [cplane] →
  plane_fd cplane = plane_fd plane →
  ∃ w'' tr',
    requestComplete cenv request w' = Done (w'', tr')
    ∧ displayed tr' = [(mmap_ret env j, plane_bytesused cplane)]
    ∧ mappedBuffers_ w'' = mappedBuffers_ w'.
Proof.
  intros Hstart Hj Hplanes Hlater Hstatus Hbufs Hcplanes Hfd.
  destruct (startCapture_success_mmapped _ _ _ _ Hstart) as [Hlen Hidx].
  destruct (startCapture_mappings _ _ _ _ _ Hstart) as (_ & _ & Hcases).
  assert (mappedBuffers_ w' !! plane_fd cplane
          = Some (mmap_ret env j, plane_length plane)) as Hentry.
  { rewrite Hfd. destruct (allocated tr).
    - simpl in Hcases. destruct Hcases as (-> & _ & _).
      by apply (record_mappings_lookup_buffer env (stream_buffers env) _ _ j buffer plane ps).
    - destruct Hcases as [Hnil _].
      destruct (Hidx j buffer Hj) as (p & ps0 & Hp & Hm). by rewrite Hnil in Hm. }
  unfold requestComplete. rewrite Hbufs, Hcplanes.
  rewrite (display_single_plane cbuffer cplane (count_frame (timestamp cbuffer) w')
             _ Hcplanes Hentry).
  eexists _, _. split; [by destruct (status request)|].
  split; [|done]. simpl. by rewrite displayed_resubmit.
Qed.

(** X3.  A [stopCapture] after a [startCapture] that returned 0 on an empty
    table, for buffers with pairwise distinct first-plane descriptors, unmaps
    exactly the regions that the start mapped, one per allocated buffer, and
    leaves the table empty and the window not capturing. *)
Theorem start_stop_unmaps_mappings env w w' tr stop_ret :
  startCapture env w = Done (0, w', tr) →
  mappedBuffers_ w = ∅ →
  NoDup (first_fds (stream_buffers env)) →
  munmapped (stopCapture stop_ret w').2 ≡ₚ (mmapped tr).*2
  ∧ length (mmapped tr) = length (stream_buffers env)
  ∧ mappedBuffers_ (stopCapture stop_ret w').1 = ∅
  ∧ isCapturing_ (stopCapture stop_ret w').1 = false.
Proof.
  intros Hstart Hempty Hnd.
  destruct (startCapture_success_mmapped _ _ _ _ Hstart) as [Hlen _].
  destruct (startCapture_success_path _ _ _ _ Hstart)
    as (rs & m & tr1 & tr2 & Hp & Hs & Hq & -> & ->).
  pose proof (populate_mappings env (stream_buffers env) 0 [] (mappedBuffers_ w)) as Hm.
  rewrite Hp in Hm. destruct Hm as (-> & Hfds & _).
  pose proof (queueAll_mappings env rs 0) as (Hqm & _). rewrite Hq in Hqm.
  unfold stopCapture. simpl in *.
  autorewrite with regions in *. simpl in *. rewrite Hqm, app_nil_r in *.
  rewrite Hempty.
  split; [|done]. apply entries_record_mappings. by rewrite Hfds.
Qed.

(** X4.  A [startCapture] that returns an error on an empty table, for
    buffers with pairwise distinct first-plane descriptors, has unmapped
    exactly the regions it mapped. *)
Theorem failed_start_unmaps_mappings env w ret w' tr :
  startCapture env w = Done (ret, w', tr) →
  ret ≠ 0 →
  mappedBuffers_ w = ∅ →
  NoDup (first_fds (stream_buffers env)) →
  munmapped tr ≡ₚ (mmapped tr).*2.
Proof.
  intros Hstart Hret Hempty Hnd.
  destruct (startCapture_mappings _ _ _ _ _ Hstart) as (Hprefix & _ & Hcases).
  destruct (allocated tr); [|by destruct Hcases as [-> ->]].
  destruct (Z.eqb_spec ret 0); [done|].
  rewrite Hcases, Hempty. apply entries_record_mappings.
  by apply (NoDup_prefix _ _ Hprefix).
Qed.

(** X5.  When two allocated buffers share their first-plane descriptor, the
    [stopCapture] after a [startCapture] that returned 0 on an empty table
    unmaps fewer regions than the start mapped: the table kept one entry per
    descriptor. *)
Theorem start_stop_leaks_shared_descriptor env w w' tr stop_ret :
  startCapture env w = Done (0, w', tr) →
  mappedBuffers_ w = ∅ →
  ¬ NoDup (first_fds (stream_buffers env)) →
  (length (munmapped (stopCapture stop_ret w').2) < length (mmapped tr))%nat.
Proof.
  intros Hstart Hempty Hdup.
  destruct (startCapture_success_mmapped _ _ _ _ Hstart) as [Hlen _].
  apply startCapture_inv in Hstart
    as [(Hneg & _) | [(Hnz & _) | (_ & Hcap & Hdom & _ & _ & _ & Hfds & _)]];
    [lia | done | ].
  unfold stopCapture. rewrite Hcap. simpl.
  rewrite munmapped_app. simpl. rewrite app_nil_r, munmapped_unmapAll.
  rewrite length_fmap, entries_Permutation, length_map_to_list, <- size_dom, Hdom.
  rewrite Hempty, dom_empty_L, (left_id_L ∅ (∪)), Hlen, <- Hfds.
  by apply size_list_to_set_dup.
Qed.

(** ** A start while the window captures *)

(** An entry of the table after a list of assignments is the last
    assignment to its key, or was in the table before under a key that was
    not assigned. *)
Lemma record_mappings_lookup_inv l :
  ∀ m k v,
    record_mappings l m !! k = Some v →
    (k, v) ∈ l ∨ (k ∉ l.*1 ∧ m !! k = Some v).
Proof.
  induction l as [|[k0 v0] l IH]; intros m k v Hlook.
  - right. split; [apply not_elem_of_nil | done].
  - rewrite record_mappings_cons in Hlook.
    destruct (IH _ _ _ Hlook) as [Hin | [Hnotin Hm]].
    + left. by apply list_elem_of_further.
    + simpl in Hm. destruct (decide (k = k0)) as [-> | Hne].
      * rewrite lookup_insert_eq in Hm. injection Hm as ->. left. apply list_elem_of_here.
      * rewrite lookup_insert_ne in Hm by done. right. split; [|done].
        rewrite fmap_cons. simpl. intros Hin.
        apply elem_of_cons in Hin as [? | ?]; done.
Qed.

(** X18.  [startCapture] does not look at [isCapturing_] or at the table:
    when it is called with a region still recorded for the first-plane
    descriptor of one of the buffers it maps (as when start is triggered
    while the window captures), and it returns 0, the new mapping takes the
    place of that entry, and the following [stopCapture] never unmaps the
    region recorded before. *)
Theorem restart_forgets_mappings env w w' tr stop_ret fd region :
  startCapture env w = Done (0, w', tr) →
  mappedBuffers_ w !! fd = Some region →
  fd ∈ first_fds (stream_buffers env) →
  region ∉ (mmapped tr).*2 →
  (∀ k, mappedBuffers_ w !! k = Some region → k = fd) →
  region ∉ munmapped (stopCapture stop_ret w').2
  ∧ mappedBuffers_ w' !! fd ≠ Some region.
Proof.
  intros Hstart Hfd Hin Hfresh Honly.
  destruct (startCapture_success_path _ _ _ _ Hstart)
    as (rs & m & tr1 & tr2 & Hp & Hs & Hq & -> & ->).
  pose proof (populate_mappings env (stream_buffers env) 0 [] (mappedBuffers_ w)) as Hm.
  rewrite Hp in Hm. destruct Hm as (-> & Hfds & _).
  pose proof (queueAll_mappings env rs 0) as (Hqm & _). rewrite Hq in Hqm.
  unfold stopCapture. simpl in *.
  autorewrite with regions in *. simpl in *. rewrite Hqm, app_nil_r in *.
  assert (∀ k, record_mappings (mmapped tr1) (mappedBuffers_ w) !! k ≠ Some region)
    as Hnever.
  { intros k Hlook.
    apply record_mappings_lookup_inv in Hlook as [Hmapped | [Hnotin Hold]].
    - apply Hfresh. apply list_elem_of_fmap. by exists (k, region).
    - apply Honly in Hold as ->. apply Hnotin. by rewrite Hfds. }
  split; [|apply Hnever].
  intros Hun. apply list_elem_of_fmap in Hun as ([k v] & -> & Hentry).
  rewrite entries_Permutation in Hentry.
  apply elem_of_map_to_list in Hentry. by apply (Hnever k).
Qed.

(** ** Requests and leftovers of a failed start *)

Lemma queued_DeleteRequest rs : queued (DeleteRequest <$> rs) = [].
Proof. by induction rs. Qed.

Lemma queued_unmapAll m : queued (unmapAll m) = [].
Proof. unfold unmapAll. by induction (entries m). Qed.

Lemma camera_starts_DeleteRequest rs : camera_starts (DeleteRequest <$> rs) = [].
Proof. by induction rs. Qed.

Lemma camera_starts_unmapAll m : camera_starts (unmapAll m) = [].
Proof. unfold unmapAll. by induction (entries m). Qed.

#[local] Hint Rewrite queued_DeleteRequest queued_unmapAll camera_starts_DeleteRequest
  camera_starts_unmapAll queued_app created_app deleted_app created_DeleteRequest
  deleted_DeleteRequest created_unmapAll deleted_unmapAll : regions.

(** The second loop hands the requests to the camera in order, up to the
    first one that the camera refuses. *)
Lemma queueAll_queued env rs :
  ∀ i res tr, queueAll env i rs = (res, tr) → queued tr `prefix_of` rs.
Proof.
  induction rs as [|r rs IH]; intros i res tr; simpl.
  - by intros [= _ <-].
  - destruct (queueRequest_ret env i <? 0) eqn:Hret.
    + intros [= _ <-]. simpl. rewrite Hret. apply prefix_nil.
    + destruct (queueAll env (S i) rs) as [res1 tr1] eqn:Hrec.
      intros [= _ <-]. simpl. rewrite Hret. simpl.
      apply prefix_cons. by eapply IH.
Qed.

(** X6.  When [startCapture] fails after [camera_->start()] succeeded, that
    is when a [queueRequest] fails, it deletes every request it created,
    those that the camera has already accepted included, and it returns with
    the camera started: there is no call of [camera_->stop()]. *)
Theorem queue_failure_deletes_queued_requests env w ret w' tr :
  startCapture env w = Done (ret, w', tr) →
  ret ≠ 0 →
  camera_starts tr = [0] →
  queued tr `prefix_of` deleted tr
  ∧ deleted tr = created tr
  ∧ camera_stops tr = []
  ∧ isCapturing_ w' = isCapturing_ w.
Proof.
  intros Hstart Hret Hstarted.
  pose proof (startCapture_mappings _ _ _ _ _ Hstart) as (_ & Hstops & _).
  apply startCapture_path in Hstart.
  inversion Hstart as [ ? ? ? Hneg ? ? ? ? ? ? ? Hcs | ? rs m tr1 Hp | rs m tr1 Hp Hs
                      | rs m tr1 ? tr2 Hp Hs Hq | rs m tr1 tr2 Hp Hs Hq ]; subst.
  - by rewrite Hcs in Hstarted.
  - pose proof (populate_mappings env (stream_buffers env) 0 [] (mappedBuffers_ w)) as Hm.
    rewrite Hp in Hm. destruct Hm as (_ & _ & _ & _ & Hcs & _).
    autorewrite with regions in Hstarted. simpl in Hstarted.
    by rewrite Hcs in Hstarted.
  - pose proof (populate_mappings env (stream_buffers env) 0 [] (mappedBuffers_ w)) as Hm.
    rewrite Hp in Hm. destruct Hm as (_ & _ & _ & _ & Hcs & _).
    autorewrite with regions in Hstarted. simpl in Hstarted.
    rewrite Hcs in Hstarted. simpl in Hstarted. congruence.
  - pose proof (queueAll_queued _ _ _ _ _ Hq) as Hprefix.
    apply queueAll_Some in Hq as (_ & Hc2 & Hd2 & _).
    apply populate_Next in Hp as (-> & _ & Hd1 & Hq1 & _).
    autorewrite with regions in Hstops. simpl in Hstops, Hprefix.
    autorewrite with regions. simpl.
    by rewrite Hd1, Hq1, Hc2, Hd2, app_nil_r.
  - done.
Qed.

(** X7.  A [startCapture] that fails once the buffers are allocated leaves
    [allocator_] pointing to the new allocator, and one that fails at
    [camera_->start()] or later also leaves the title timer running with the
    counters reset; when the window was not capturing, a following
    [stopCapture] does nothing, so it neither deletes that allocator nor stops
    that timer. *)
Theorem failed_start_leftovers env w ret w' tr :
  startCapture env w = Done (ret, w', tr) →
  ret ≠ 0 →
  allocated tr = true →
  allocator_ w' = AllocLive
  ∧ (camera_starts tr ≠ [] →
     titleTimer_ w' = true ∧ framesCaptured_ w' = 0 ∧ previousFrames_ w' = 0)
  ∧ (isCapturing_ w = false → ∀ stop_ret, stopCapture stop_ret w' = (w', [])).
Proof.
  intros Hstart Hret Halloc.
  apply startCapture_path in Hstart.
  inversion Hstart as [ ? ? ? Hneg Hna | ? rs m tr1 Hp | rs m tr1 Hp Hs
                      | rs m tr1 ? tr2 Hp Hs Hq | rs m tr1 tr2 Hp Hs Hq ]; subst.
  - congruence.
  - split; [done|]. split.
    + pose proof (populate_mappings env (stream_buffers env) 0 [] (mappedBuffers_ w)) as Hm.
      rewrite Hp in Hm. destruct Hm as (_ & _ & _ & _ & Hcs & _).
      autorewrite with regions. simpl. by rewrite Hcs.
    + intros Hcap r. unfold stopCapture. simpl. by rewrite Hcap.
  - split; [done|]. split; [done|].
    intros Hcap r. unfold stopCapture. simpl. by rewrite Hcap.
  - split; [done|]. split; [done|].
    intros Hcap r. unfold stopCapture. simpl. by rewrite Hcap.
  - done.
Qed.

(** The sign of what [startCapture] returns: 0 with the window marked
    capturing, a negative error, or the positive value that
    [camera_->start()] returned; the flag is only written in the first case. *)
Lemma startCapture_ret_sign env w ret w' tr :
  startCapture env w = Done (ret, w', tr) →
  (ret = 0 ∧ isCapturing_ w' = true)
  ∨ (ret < 0 ∧ isCapturing_ w' = isCapturing_ w)
  ∨ (0 < ret ∧ ret = start_ret env ∧ camera_starts tr = [ret]
     ∧ isCapturing_ w' = isCapturing_ w).
Proof.
  intros Hstart. apply startCapture_path in Hstart.
  inversion Hstart as [ ? ? ? Hneg ? ? Hcap | ? rs m tr1 Hp | rs m tr1 Hp Hs
                      | rs m tr1 ? tr2 Hp Hs Hq | rs m tr1 tr2 Hp Hs Hq ]; subst.
  - right. left. by split.
  - apply populate_GotoError in Hp as (? & _). right. by left.
  - pose proof (populate_mappings env (stream_buffers env) 0 [] (mappedBuffers_ w)) as Hm.
    rewrite Hp in Hm. destruct Hm as (_ & _ & _ & _ & Hcs & _).
    destruct (Z.lt_trichotomy (start_ret env) 0) as [?|[?|?]]; [by right; left|done|].
    right. right. repeat split; try done.
    autorewrite with regions. simpl. by rewrite Hcs.
  - apply queueAll_Some in Hq as (? & _). right. by left.
  - by left.
Qed.

(** ** Completions in a row *)

(** The two ways a call of the handler returns. *)
Lemma requestComplete_inv env request w w' tr :
  requestComplete env request w = Done (w', tr) →
  (cancelled request = true ∧ w' = w ∧ tr = [])
  ∨ (cancelled request = false
     ∧ ∃ st buffer rest plane0 ps trd,
         buffers request = (st, buffer) :: rest
         ∧ planes buffer = plane0 :: ps
         ∧ tr = log_line w buffer plane0 :: trd ++ resubmit env (buffers request)
         ∧ ((ps ≠ [] ∧ trd = [] ∧ w' = count_frame (timestamp buffer) w)
            ∨ (ps = []
               ∧ trd = [Display (subscript (mappedBuffers_ w) (plane_fd plane0)).1.1
                          (plane_bytesused plane0)]
               ∧ w' = set_mappedBuffers
                        (subscript (mappedBuffers_ w) (plane_fd plane0)).2
                        (count_frame (timestamp buffer) w)))).
Proof.
  unfold requestComplete, cancelled.
  destruct (status request); [ | | intros [= <- <-]; by left ].
  all: destruct (buffers request) as [|[st buffer] rest]; [done|].
  all: destruct (planes buffer) as [|plane0 ps] eqn:Hplanes; [done|].
  all: unfold display; rewrite Hplanes.
  all: destruct ps as [|plane1 ps]; simpl.
  all: try (destruct (subscript _ _) as [entry m] eqn:Hsub; intros [= <- <-];
            right; split; [done|];
            exists st, buffer, rest, plane0, [], [Display entry.1 (plane_bytesused plane0)];
            repeat split; try done; right; by rewrite Hsub).
  all: intros [= <- <-]; right; split; [done|];
    exists st, buffer, rest, plane0, (plane1 :: ps), [];
    repeat split; try done; by left.
Qed.

Lemma created_resubmit env bufs :
  created (resubmit env bufs) = option_list (createRequest_new env).
Proof.
  unfold resubmit. destruct (createRequest_new env) as [r|]; [|done].
  simpl. rewrite created_app. simpl. rewrite app_nil_r.
  f_equal. by induction bufs.
Qed.

Lemma queue_calls_resubmit env bufs :
  queue_calls (resubmit env bufs) = option_list (createRequest_new env).
Proof.
  unfold resubmit. destruct (createRequest_new env) as [r|]; [|done].
  simpl. rewrite queue_calls_app. simpl.
  assert (queue_calls ((λ sb : StreamPtr * FrameBuffer,
             AddBuffer r sb.1 sb.2 (addBuffer_new env)) <$> bufs) = []) as ->;
    [by induction bufs | done].
Qed.

Lemma deleted_resubmit env bufs : deleted (resubmit env bufs) = [].
Proof.
  unfold resubmit. destruct (createRequest_new env) as [r|]; [|done].
  simpl. rewrite deleted_app. simpl. rewrite app_nil_r. by induction bufs.
Qed.

Lemma logged_fps_resubmit env bufs : logged_fps (resubmit env bufs) = [].
Proof.
  unfold resubmit. destruct (createRequest_new env) as [r|]; [|done].
  simpl. unfold logged_fps. rewrite flat_map_app. simpl. rewrite app_nil_r.
  by induction bufs.
Qed.

Lemma mmapped_resubmit env bufs : mmapped (resubmit env bufs) = [].
Proof.
  unfold resubmit. destruct (createRequest_new env) as [r|]; [|done].
  simpl. rewrite mmapped_app. simpl. rewrite app_nil_r. by induction bufs.
Qed.

Lemma munmapped_resubmit env bufs : munmapped (resubmit env bufs) = [].
Proof.
  unfold resubmit. destruct (createRequest_new env) as [r|]; [|done].
  simpl. rewrite munmapped_app. simpl. rewrite app_nil_r. by induction bufs.
Qed.

(** What one call of the handler does to the counter and to the requests. *)
Lemma requestComplete_counts env request w w' tr :
  requestComplete env request w = Done (w', tr) →
  if cancelled request then w' = w ∧ tr = []
  else
    framesCaptured_ w' = wrap32 (framesCaptured_ w + 1)
    ∧ length (logged_fps tr) = 1%nat
    ∧ created tr = option_list (createRequest_new env)
    ∧ queue_calls tr = option_list (createRequest_new env)
    ∧ deleted tr = [].
Proof.
  intros Hrun. apply requestComplete_inv in Hrun
    as [(-> & -> & ->) | (-> & st & buffer & rest & plane0 & ps & trd & Hb & Hp & -> & Hcases)];
    [done|].
  unfold log_line.
  destruct Hcases as [(_ & -> & ->) | (_ & -> & ->)]; simpl.
  all: rewrite created_resubmit, queue_calls_resubmit, deleted_resubmit.
  all: unfold logged_fps; simpl; fold (logged_fps (resubmit env (buffers request))).
  all: by rewrite logged_fps_resubmit.
Qed.

Lemma logged_fps_app tr1 tr2 : logged_fps (tr1 ++ tr2) = logged_fps tr1 ++ logged_fps tr2.
Proof. apply flat_map_app. Qed.

Lemma completed_cons env request cs :
  completed ((env, request) :: cs)
  = if cancelled request then completed cs else (env, request) :: completed cs.
Proof.
  unfold completed. rewrite filter_cons. simpl.
  by destruct (cancelled request); [rewrite decide_False | rewrite decide_True].
Qed.

Lemma resubmitted_cons env request cs :
  resubmitted ((env, request) :: cs)
  = if cancelled request then resubmitted cs
    else option_list (createRequest_new env) ++ resubmitted cs.
Proof.
  unfold resubmitted. rewrite completed_cons.
  destruct (cancelled request); [done|]. simpl.
  by destruct (createRequest_new env).
Qed.

(** The counter after a row of completions, modulo 2^32. *)
Lemma completeAll_frames_mod cs :
  ∀ w w' tr,
    completeAll cs w = Done (w', tr) →
    wrap32 (framesCaptured_ w')
    = wrap32 (framesCaptured_ w + Z.of_nat (length (completed cs)))
    ∧ (0 ≤ framesCaptured_ w < 2 ^ 32 → 0 ≤ framesCaptured_ w' < 2 ^ 32)
    ∧ length (logged_fps tr) = length (completed cs)
    ∧ created tr = resubmitted cs
    ∧ queue_calls tr = resubmitted cs
    ∧ deleted tr = [].
Proof.
  induction cs as [|[env request] cs IH]; intros w w' tr.
  - intros [= <- <-]. simpl. by rewrite Z.add_0_r.
  - simpl completeAll.
    destruct (requestComplete env request w) as [[w1 tr1]|] eqn:Hone; [|done].
    destruct (completeAll cs w1) as [[w2 tr2]|] eqn:Hrest; [|done].
    intros [= <- <-].
    apply requestComplete_counts in Hone.
    apply IH in Hrest as (Hmod & Hrange & Hlog & Hcr & Hqc & Hdel).
    rewrite completed_cons, resubmitted_cons.
    rewrite logged_fps_app, length_app, created_app, queue_calls_app, deleted_app.
    destruct (cancelled request) eqn:Hc.
    + by destruct Hone as [-> ->].
    + destruct Hone as (Hf & Hl & Hc1 & Hq1 & Hd1).
      rewrite Hl, Hlog, Hc1, Hq1, Hd1, Hcr, Hqc, Hdel.
      split; [|split; [|done]].
      * rewrite Hmod, Hf. unfold wrap32.
        rewrite Zplus_mod_idemp_l. f_equal. simpl length. lia.
      * intros _. apply Hrange. rewrite Hf. unfold wrap32.
        apply Z.mod_pos_bound. lia.
Qed.

(** X8.  After a row of completions, [framesCaptured_] has advanced, modulo
    2^32, by the number of those that were not cancelled; each of these logged
    one line; and the handler created and queued one request for each of them
    for which the camera handed one out, and deleted none. *)
Theorem completeAll_counts cs w w' tr :
  completeAll cs w = Done (w', tr) →
  0 ≤ framesCaptured_ w < 2 ^ 32 →
  framesCaptured_ w' = wrap32 (framesCaptured_ w + Z.of_nat (length (completed cs)))
  ∧ length (logged_fps tr) = length (completed cs)
  ∧ created tr = resubmitted cs
  ∧ queue_calls tr = resubmitted cs
  ∧ deleted tr = [].
Proof.
  intros Hrun Hrange.
  apply completeAll_frames_mod in Hrun as (Hmod & Hin & Hlog & Hcr & Hqc & Hdel).
  repeat split; try done.
  rewrite <- Hmod. unfold wrap32. symmetry. apply Z.mod_small. by apply Hin.
Qed.

(** What one call of the handler leaves alone. *)
Lemma requestComplete_frame env request w w' tr :
  requestComplete env request w = Done (w', tr) →
  (∀ k e, mappedBuffers_ w !! k = Some e → mappedBuffers_ w' !! k = Some e)
  ∧ (∀ k e, mappedBuffers_ w' !! k = Some e →
       mappedBuffers_ w !! k = Some e ∨ e = (nullptr, 0))
  ∧ mmapped tr = [] ∧ munmapped tr = []
  ∧ isCapturing_ w' = isCapturing_ w ∧ allocator_ w' = allocator_ w
  ∧ config_ w' = config_ w ∧ titleTimer_ w' = titleTimer_ w
  ∧ previousFrames_ w' = previousFrames_ w.
Proof.
  intros Hrun. apply requestComplete_inv in Hrun
    as [(_ & -> & ->) | (_ & st & buffer & rest & plane0 & ps & trd & Hb & Hp & -> & Hcases)].
  { repeat split; auto. }
  unfold log_line.
  destruct Hcases as [(_ & -> & ->) | (_ & -> & ->)]; simpl;
    rewrite ?mmapped_resubmit, ?munmapped_resubmit.
  { repeat split; auto. }
  unfold subscript.
  destruct (mappedBuffers_ w !! plane_fd plane0) as [entry|] eqn:Hentry; simpl.
  { repeat split; auto. }
  repeat split; try done.
  - intros k e Hk. rewrite lookup_insert_ne; [done|]. congruence.
  - intros k e. rewrite lookup_insert. case_decide; [|by left].
    intros [= <-]. by right.
Qed.

(** X9.  A row of completions never unmaps or remaps anything: every entry
    of the table is still there with the same region, an entry that was not
    there before is the empty one that the lookup of [display] inserts, and
    the capturing flag, the allocator, the configuration, the title timer and
    [previousFrames_] are as before. *)
Theorem completeAll_keeps_mappings cs :
  ∀ w w' tr,
    completeAll cs w = Done (w', tr) →
    (∀ k e, mappedBuffers_ w !! k = Some e → mappedBuffers_ w' !! k = Some e)
    ∧ (∀ k e, mappedBuffers_ w' !! k = Some e →
         mappedBuffers_ w !! k = Some e ∨ e = (nullptr, 0))
    ∧ mmapped tr = [] ∧ munmapped tr = []
    ∧ isCapturing_ w' = isCapturing_ w ∧ allocator_ w' = allocator_ w
    ∧ config_ w' = config_ w ∧ titleTimer_ w' = titleTimer_ w
    ∧ previousFrames_ w' = previousFrames_ w.
Proof.
  induction cs as [|[env request] cs IH]; intros w w' tr.
  - intros [= <- <-]. repeat split; auto.
  - simpl completeAll.
    destruct (requestComplete env request w) as [[w1 tr1]|] eqn:Hone; [|done].
    destruct (completeAll cs w1) as [[w2 tr2]|] eqn:Hrest; [|done].
    intros [= <- <-].
    apply requestComplete_frame in Hone
      as (Hk1 & Hn1 & Hm1 & Hu1 & Hc1 & Ha1 & Hg1 & Ht1 & Hp1).
    apply IH in Hrest as (Hk2 & Hn2 & Hm2 & Hu2 & Hc2 & Ha2 & Hg2 & Ht2 & Hp2).
    rewrite mmapped_app, munmapped_app, Hm1, Hm2, Hu1, Hu2.
    split; [by auto|]. split.
    { intros k e Hk. destruct (Hn2 k e Hk) as [Hk'|]; [|by right]. by apply Hn1. }
    repeat split; congruence.
Qed.

(** ** The slots in any order *)

Lemma startCapture_counters env w ret w' tr :
  startCapture env w = Done (ret, w', tr) →
  counters_in_range w → counters_in_range w'.
Proof.
  intros Hstart [Hf Hp]. apply startCapture_path in Hstart.
  inversion Hstart as [ ? ? ? Hneg Hna Hm Hc Ht Hf' Hp' | | | | ]; subst.
  - unfold counters_in_range. by rewrite Hf', Hp'.
  - done.
  - by split.
  - by split.
  - by split.
Qed.

Lemma step_invariants a w w' :
  step a w = Done w' →
  match a with
  | DoComplete _ request => cancelled request = true ∨ isCapturing_ w = true
  | _ => True
  end →
  idle_clean w → counters_in_range w →
  idle_clean w' ∧ counters_in_range w'.
Proof.
  destruct a as [env|stop_ret|env request|elapsed]; simpl.
  - destruct (startCapture env w) as [[[ret w1] tr]|] eqn:Hstart; [|done].
    intros [= <-] _ Hidle Hrange. split.
    + by eapply startCapture_idle_clean.
    + by eapply startCapture_counters.
  - intros [= <-] _ Hidle Hrange. split; [by apply stopCapture_idle_clean|].
    unfold stopCapture. by destruct (isCapturing_ w).
  - destruct (requestComplete env request w) as [[w1 tr]|] eqn:Hrun; [|done].
    intros [= <-] Htimely Hidle [Hf Hp]. split.
    + eapply requestComplete_idle_clean; [|done..].
      destruct Htimely as [Hc|Hc]; [right | by left].
      unfold cancelled in Hc. by destruct (status request).
    + pose proof (requestComplete_counts _ _ _ _ _ Hrun) as Hcount.
      pose proof (requestComplete_frame _ _ _ _ _ Hrun)
        as (_ & _ & _ & _ & _ & _ & _ & _ & Hprev).
      unfold counters_in_range. rewrite Hprev. split; [|done].
      destruct (cancelled request); [by destruct Hcount as [-> _]|].
      destruct Hcount as (-> & _). unfold wrap32. apply Z.mod_pos_bound. lia.
  - intros [= <-] _ Hidle [Hf Hp]. by split.
Qed.

(** X10.  However the slots are called one after the other, as long as no
    completion that is not cancelled arrives while the window is not
    capturing, a window that holds no mapping while idle keeps holding none
    while idle, and its two frame counters stay within 32 bits. *)
Theorem run_invariants acts :
  ∀ w w',
    run acts w = Done w' →
    timely acts w →
    idle_clean w → counters_in_range w →
    idle_clean w' ∧ counters_in_range w'.
Proof.
  induction acts as [|a acts IH]; intros w w'; simpl.
  - by intros [= <-].
  - destruct (step a w) as [w1|] eqn:Hstep; [|done].
    intros Hrun [Ha Htimely] Hidle Hrange.
    destruct (step_invariants a w w1 Hstep Ha Hidle Hrange) as [Hidle1 Hrange1].
    by apply (IH w1 w').
Qed.

(** ** The rate in the window title *)

Lemma completeAll_previousFrames cs :
  ∀ w w' tr, completeAll cs w = Done (w', tr) → previousFrames_ w' = previousFrames_ w.
Proof.
  induction cs as [|[env request] cs IH]; intros w w' tr.
  - by intros [= <- <-].
  - simpl completeAll.
    destruct (requestComplete env request w) as [[w1 tr1]|] eqn:Hone; [|done].
    destruct (completeAll cs w1) as [[w2 tr2]|] eqn:Hrest; [|done].
    intros [= <- <-].
    apply requestComplete_frame in Hone as (_ & _ & _ & _ & _ & _ & _ & _ & Hp1).
    apply IH in Hrest. congruence.
Qed.

(** X11.  When [previousFrames_] equals [framesCaptured_] (as after a start
    or a title update) and fewer than 2^32 completions that are not cancelled
    follow, the next title update computes its rate from exactly that number
    of frames, also when [framesCaptured_] has wrapped around in between, and
    stores the counter in [previousFrames_]. *)
Theorem updateTitle_counts_frames elapsed cs w w' tr :
  previousFrames_ w = framesCaptured_ w →
  completeAll cs w = Done (w', tr) →
  Z.of_nat (length (completed cs)) < 2 ^ 32 →
  (updateTitle elapsed w').2
  = double_div
      (double_mul (double_of_uint32 (Z.of_nat (length (completed cs)))) d1000)
      (double_of_uint32 (wrap32 elapsed))
  ∧ previousFrames_ (updateTitle elapsed w').1 = framesCaptured_ w'
  ∧ framesCaptured_ (updateTitle elapsed w').1 = framesCaptured_ w'.
Proof.
  intros Hsync Hrun Hfew.
  pose proof (completeAll_previousFrames _ _ _ _ Hrun) as Hprev.
  apply completeAll_frames_mod in Hrun as (Hmod & _).
  unfold updateTitle. simpl. split; [|done].
  do 2 f_equal. rewrite Hprev, Hsync. unfold wrap32 in *.
  rewrite Zminus_mod, Hmod, <- Zminus_mod.
  replace (framesCaptured_ w + Z.of_nat (length (completed cs)) - framesCaptured_ w)
    with (Z.of_nat (length (completed cs))) by lia.
  rewrite Z.mod_small by lia. done.
Qed.

Lemma shr_fexp_exponent m e l : e ≤ snd (shr_fexp 53 1024 m e l).
Proof.
  unfold shr_fexp, shr.
  destruct (fexp 53 1024 (Zdigits2 m + e) - e) as [|k|k]; simpl; lia.
Qed.

(** Rounding a positive mantissa at an exponent that is not below the
    smallest one gives a number of the same sign that is not zero, at an
    exponent that is not smaller. *)
Lemma binary_round_aux_pos s m e l :
  emin 53 1024 ≤ e →
  match binary_round_aux 53 1024 s (Z.pos m) e l with
  | S754_finite s' _ e' => s' = s ∧ e ≤ e'
  | S754_infinity s' => s' = s
  | _ => False
  end.
Proof.
  intros He. unfold binary_round_aux.
  destruct (shr_fexp_pos m e l He) as [Hm1 He1].
  pose proof (shr_fexp_exponent (Z.pos m) e l) as Hle1.
  destruct (shr_fexp 53 1024 (Z.pos m) e l) as [mrs1 e1]. simpl in Hm1, He1, Hle1.
  pose proof (round_nearest_even_pos (shr_m mrs1) (loc_of_shr_record mrs1) Hm1) as Hr.
  destruct (round_nearest_even (shr_m mrs1) (loc_of_shr_record mrs1)) as [|m2|m2];
    try done.
  destruct (shr_fexp_pos m2 e1 loc_Exact He1) as [Hm2 _].
  pose proof (shr_fexp_exponent (Z.pos m2) e1 loc_Exact) as Hle2.
  destruct (shr_fexp 53 1024 (Z.pos m2) e1 loc_Exact) as [mrs2 e2]. simpl in Hm2, Hle2.
  destruct (shr_m mrs2); try done.
  destruct (_ <=? _); [|done]. split; [done|lia].
Qed.

(** A positive integer converts to a positive [double] that is not zero. *)
Lemma double_of_uint32_pos z :
  0 < z →
  match double_of_uint32 z with
  | S754_finite s _ e => s = false ∧ -52 ≤ e
  | S754_infinity s => s = false
  | _ => False
  end.
Proof.
  intros Hz. destruct z as [|p|p]; try done.
  unfold double_of_uint32, binary_normalize, binary_round, shl_align.
  assert (-52 ≤ fexp 53 1024 (Z.pos (digits2_pos p) + 0)) as Hfexp
    by (unfold fexp, emin; lia).
  destruct (fexp 53 1024 (Z.pos (digits2_pos p) + 0) - 0) eqn:Hd.
  all: match goal with
       | |- context [binary_round_aux 53 1024 false (Z.pos ?m) ?e loc_Exact] =>
         pose proof (binary_round_aux_pos false m e loc_Exact) as Hr;
         destruct (binary_round_aux 53 1024 false (Z.pos m) e loc_Exact)
       end.
  all: try (destruct Hr as [-> He]; [unfold emin; lia|]; split; [done|lia]).
  all: apply Hr; unfold emin; lia.
Qed.

Lemma d1000_value : d1000 = S754_finite false 8796093022208000 (-43).
Proof. vm_compute. reflexivity. Qed.

(** X12.  The rate that a title update computes at its edges: with no frame
    since the last update it is [0.0] when time has elapsed and not a number
    when none has; with frames but no time elapsed it is plus infinity.  The
    elapsed time counts modulo 2^32 milliseconds. *)
Theorem updateTitle_edge_rates elapsed w :
  (wrap32 (framesCaptured_ w - previousFrames_ w) = 0 → wrap32 elapsed ≠ 0 →
   (updateTitle elapsed w).2 = S754_zero false)
  ∧ (wrap32 (framesCaptured_ w - previousFrames_ w) = 0 → wrap32 elapsed = 0 →
     (updateTitle elapsed w).2 = S754_nan)
  ∧ (wrap32 (framesCaptured_ w - previousFrames_ w) ≠ 0 → wrap32 elapsed = 0 →
     (updateTitle elapsed w).2 = S754_infinity false).
Proof.
  unfold updateTitle. simpl.
  assert (∀ z, 0 ≤ wrap32 z) as Hnonneg
    by (intros z; unfold wrap32; apply Z.mod_pos_bound; lia).
  split; [|split].
  - intros -> Hd. rewrite d1000_value.
    pose proof (double_of_uint32_pos (wrap32 elapsed)) as Hpos.
    destruct (double_of_uint32 (wrap32 elapsed)) as [| s | | s m e].
    + destruct Hpos. specialize (Hnonneg elapsed). lia.
    + rewrite Hpos; [done|]. specialize (Hnonneg elapsed). lia.
    + destruct Hpos. specialize (Hnonneg elapsed). lia.
    + destruct Hpos as [-> _]; [|done]. specialize (Hnonneg elapsed). lia.
  - intros -> ->. by rewrite d1000_value.
  - intros Hf ->. rewrite d1000_value.
    pose proof (double_of_uint32_pos (wrap32 (framesCaptured_ w - previousFrames_ w)))
      as Hpos.
    specialize (Hnonneg (framesCaptured_ w - previousFrames_ w)).
    destruct (double_of_uint32 (wrap32 (framesCaptured_ w - previousFrames_ w)))
      as [| s | | s m e].
    + destruct Hpos. lia.
    + rewrite Hpos by lia. done.
    + destruct Hpos. lia.
    + destruct Hpos as [-> He]; [lia|].
      unfold double_mul, double_div, double_of_uint32. simpl SFmul.
      pose proof (binary_round_aux_pos false (m * 8796093022208000) (e + -43) loc_Exact)
        as Hr.
      destruct (binary_round_aux 53 1024 false (Z.pos (m * 8796093022208000)) (e + -43)
                  loc_Exact).
      * destruct Hr. unfold emin. lia.
      * rewrite Hr by (unfold emin; lia). done.
      * destruct Hr. unfold emin. lia.
      * destruct Hr as [-> _]; [unfold emin; lia|]. done.
Qed.

(** * Properties of the window and its camera *)

Lemma session_app tr1 tr2 : session (tr1 ++ tr2) = session tr1 ++ session tr2.
Proof. apply flat_map_app. Qed.

Lemma session_Session tr : session (Session <$> tr) = tr.
Proof. induction tr as [|e tr IH]; csimpl; [done | by rewrite IH]. Qed.

Lemma quits_app tr1 tr2 : quits (tr1 ++ tr2) = (quits tr1 + quits tr2)%nat.
Proof. unfold quits. by rewrite flat_map_app, length_app. Qed.

Lemma quits_Session tr : quits (Session <$> tr) = 0%nat.
Proof. unfold quits. by induction tr. Qed.

Lemma held_app tr1 tr2 l : held (tr1 ++ tr2) l = held tr2 (held tr1 l).
Proof. apply foldl_app. Qed.

Lemma connected_app tr1 tr2 l : connected (tr1 ++ tr2) l = connected tr2 (connected tr1 l).
Proof. apply foldl_app. Qed.

Lemma held_Session tr l : held (Session <$> tr) l = l.
Proof. induction tr as [|e tr IH]; [done | apply IH]. Qed.

Lemma connected_Session tr l : connected (Session <$> tr) l = l.
Proof. induction tr as [|e tr IH]; [done | apply IH]. Qed.

Lemma chooseCamera_trace env :
  session (chooseCamera env).2 = [] ∧ quits (chooseCamera env).2 = 0%nat
  ∧ (∀ l, held (chooseCamera env).2 l = l)
  ∧ (∀ l, connected (chooseCamera env).2 l = l)
  ∧ dialogs (chooseCamera env).2
    = (if bool_decide (length (cameras env) = 1%nat) then 0 else 1)%nat.
Proof.
  unfold chooseCamera.
  destruct (cameras env) as [|c1 [|c2 cs]]; simpl; [|done|];
    by destruct (dialog_answer env).
Qed.

(** The four ways [openCamera] returns, after the name was taken from the
    command line or from [chooseCamera]. *)
Lemma openCamera_inv env a ret a' tr :
  openCamera env a = (ret, a', tr) →
  ∃ name tr0,
    session tr0 = [] ∧ quits tr0 = 0%nat
    ∧ (∀ l, held tr0 l = l) ∧ (∀ l, connected tr0 l = l)
    ∧ dialogs tr0
      = match opt_camera env with
        | Some _ => 0%nat
        | None => if bool_decide (length (cameras env) = 1%nat) then 0%nat else 1%nat
        end
    ∧ ((name = ""%string ∧ ret = - EINVAL ∧ a' = a ∧ tr = tr0)
       ∨ (get env name = None ∧ ret = - ENODEV ∧ a' = mkApp (window a) None
          ∧ tr = tr0 ++ [Get name None])
       ∨ (∃ cam, get env name = Some cam ∧ acquire_ret env ≠ 0 ∧ ret = - EBUSY
            ∧ a' = mkApp (window a) None
            ∧ tr = tr0 ++ [Get name (Some cam);
                           Acquire (camera_id cam) (acquire_ret env)])
       ∨ (∃ cam, get env name = Some cam ∧ acquire_ret env = 0 ∧ ret = 0
            ∧ a' = mkApp (window a) (Some cam)
            ∧ tr = tr0 ++ [Get name (Some cam); Acquire (camera_id cam) 0;
                           Connect (camera_id cam)])).
Proof.
  unfold openCamera.
  pose proof (chooseCamera_trace env) as (Hs & Hq & Hh & Hc & Hd).
  assert (∃ name tr0,
            match opt_camera env with
            | Some name => (name, [])
            | None => chooseCamera env
            end = (name, tr0)
            ∧ session tr0 = [] ∧ quits tr0 = 0%nat
            ∧ (∀ l, held tr0 l = l) ∧ (∀ l, connected tr0 l = l)
            ∧ dialogs tr0
              = match opt_camera env with
                | Some _ => 0%nat
                | None =>
                  if bool_decide (length (cameras env) = 1%nat) then 0%nat else 1%nat
                end)
    as (name & tr0 & -> & Hs0 & Hq0 & Hh0 & Hc0 & Hd0).
  { destruct (opt_camera env) as [name|]; [by exists name, []|].
    destruct (chooseCamera env) as [name tr0]. by exists name, tr0. }
  intros Hopen. exists name, tr0. do 5 (split; [done|]).
  destruct (decide (name = ""%string)); [injection Hopen as <- <- <-; by left|].
  destruct (get env name) as [cam|]; [|injection Hopen as <- <- <-; by right; left].
  destruct (Z.eqb_spec (acquire_ret env) 0) as [Hacq|Hacq]; simpl in Hopen;
    injection Hopen as <- <- <-.
  - right. right. right. exists cam. by rewrite Hacq.
  - right. right. left. by exists cam.
Qed.

(** X13.  [openCamera] on an application without camera returns 0 exactly
    when it leaves [camera_] set; then the application holds that camera and
    the window is connected to its completion signal once.  Otherwise it
    returns [-EINVAL], [-ENODEV] or [-EBUSY], holds no camera and has made no
    connection.  In both cases the window is as before, and the dialog was
    shown exactly when no camera option was given and the manager does not
    know exactly one camera. *)
Theorem openCamera_result env a ret a' tr :
  camera_ a = None →
  openCamera env a = (ret, a', tr) →
  linked a' (held tr []) (connected tr [])
  ∧ (ret = 0 ↔ is_Some (camera_ a'))
  ∧ (ret = 0 ∨ ret = - EINVAL ∨ ret = - ENODEV ∨ ret = - EBUSY)
  ∧ window a' = window a
  ∧ session tr = [] ∧ quits tr = 0%nat
  ∧ dialogs tr
    = match opt_camera env with
      | Some _ => 0%nat
      | None => if bool_decide (length (cameras env) = 1%nat) then 0%nat else 1%nat
      end.
Proof.
  intros Hnone Hopen. unfold linked.
  assert (- EINVAL ≠ 0 ∧ - ENODEV ≠ 0 ∧ - EBUSY ≠ 0) as (? & ? & ?)
    by (unfold EINVAL, ENODEV, EBUSY; lia).
  apply openCamera_inv in Hopen as (name & tr0 & Hs0 & Hq0 & Hh0 & Hc0 & Hd0 & Hcases).
  assert (∀ tr1, dialogs tr1 = 0%nat → dialogs (tr0 ++ tr1) = dialogs tr0) as Hd1.
  { intros tr1 Htr1. unfold dialogs in *. rewrite flat_map_app, length_app. lia. }
  destruct Hcases as [(_ & -> & -> & ->) | [(_ & -> & -> & ->)
    | [(cam & _ & Hacq & -> & -> & ->) | (cam & _ & Hacq & -> & -> & ->)]]].
  - rewrite Hh0, Hc0, Hnone. simpl.
    split_and!; try done; try (by intros [? ?]); auto.
  - rewrite held_app, connected_app, session_app, quits_app, Hh0, Hc0, Hs0, Hq0,
      Hd1 by done. simpl.
    split_and!; try done; try (by intros [? ?]); auto.
  - rewrite held_app, connected_app, session_app, quits_app, Hh0, Hc0, Hs0, Hq0,
      Hd1 by done. simpl.
    destruct (Z.eqb_spec (acquire_ret env) 0); [done|].
    split_and!; try done; try (by intros [? ?]); auto.
  - rewrite held_app, connected_app, session_app, quits_app, Hh0, Hc0, Hs0, Hq0,
      Hd1 by done. simpl.
    split_and!; try done; try (by eexists); auto.
Qed.

Lemma stopCapture_not_capturing stop_ret w :
  isCapturing_ (stopCapture stop_ret w).1 = false.
Proof. unfold stopCapture. by destruct (isCapturing_ w) eqn:Hcap. Qed.

(** The two ways a call of [setCamera] returns. *)
Lemma setCamera_inv env cam a ret a' tr :
  setCamera env cam a = Done (ret, a', tr) →
  (switch_acquire_ret env ≠ 0 ∧ ret = - EBUSY ∧ a' = a
   ∧ tr = [Acquire (camera_id cam) (switch_acquire_ret env)])
  ∨ (switch_acquire_ret env = 0 ∧ ret = 0
     ∧ ∃ old sret w2 tr_start,
         camera_ a = Some old
         ∧ startCapture (switch_start env) (stopCapture (switch_stop_ret env) (window a)).1
           = Done (sret, w2, tr_start)
         ∧ a' = mkApp w2 (Some cam)
         ∧ tr = [Acquire (camera_id cam) 0]
                  ++ (Session <$> (stopCapture (switch_stop_ret env) (window a)).2)
                  ++ [Release (camera_id old); Disconnect (camera_id old);
                      Connect (camera_id cam)]
                  ++ (Session <$> tr_start)).
Proof.
  unfold setCamera.
  destruct (Z.eqb_spec (switch_acquire_ret env) 0) as [Hacq|Hacq]; simpl.
  - destruct (stopCapture (switch_stop_ret env) (window a)) as [w1 tr_stop].
    destruct (camera_ a) as [old|]; [|done].
    destruct (startCapture (switch_start env) w1) as [[[sret w2] tr_start]|] eqn:Hstart;
      [|done].
    intros [= <- <- <-]. right. rewrite Hacq. split; [done|]. split; [done|].
    by exists old, sret, w2, tr_start.
  - intros [= <- <- <-]. by left.
Qed.

(** X14.  A call of [setCamera] that finds the chosen camera busy returns
    [-EBUSY] and leaves the application, its window included, as it was,
    without a call into the session.  Otherwise it returns 0 with [camera_]
    set to the chosen camera, whatever the [startCapture] on that camera
    returned: the window is capturing afterwards exactly when that
    [startCapture] returned 0. *)
Theorem setCamera_result env cam a ret a' tr :
  setCamera env cam a = Done (ret, a', tr) →
  (switch_acquire_ret env ≠ 0 ∧ ret = - EBUSY ∧ a' = a ∧ session tr = [])
  ∨ (switch_acquire_ret env = 0 ∧ ret = 0 ∧ camera_ a' = Some cam
     ∧ ∃ sret tr_start,
         startCapture (switch_start env) (stopCapture (switch_stop_ret env) (window a)).1
         = Done (sret, window a', tr_start)
         ∧ (isCapturing_ (window a') = true ↔ sret = 0)
         ∧ session tr = (stopCapture (switch_stop_ret env) (window a)).2 ++ tr_start).
Proof.
  intros Hset. apply setCamera_inv in Hset
    as [(Hacq & -> & -> & ->)
       | (Hacq & -> & old & sret & w2 & tr_start & Hold & Hstart & -> & ->)].
  - by left.
  - right. split; [done|]. split; [done|]. split; [done|].
    exists sret, tr_start. split; [done|]. split.
    + pose proof (stopCapture_not_capturing (switch_stop_ret env) (window a)) as Hidle.
      destruct (startCapture_ret_sign _ _ _ _ _ Hstart)
        as [[-> Hcap] | [[Hneg Hcap] | (Hpos & _ & _ & Hcap)]]; simpl.
      * done.
      * rewrite Hcap, Hidle. split; [done | lia].
      * rewrite Hcap, Hidle. split; [done | lia].
    + simpl. rewrite !session_app, !session_Session. simpl.
      by rewrite session_Session.
Qed.

(** X15.  However often the camera is switched, also back to an earlier
    camera, the window ends up connected to the completion signal of its
    current camera only, and only once; and when no [acquire] of the camera
    that the window already has returns 0, the application ends up holding
    its current camera only. *)
Theorem switchAll_linked sws :
  ∀ a a' tr old,
    camera_ a = Some old →
    switchAll sws a = Done (a', tr) →
    ∃ cur, camera_ a' = Some cur
      ∧ connected tr [camera_id old] = [camera_id cur]
      ∧ (exclusive sws a → held tr [camera_id old] = [camera_id cur]).
Proof.
  induction sws as [|[env cam] sws IH]; intros a a' tr old Hold.
  - intros [= <- <-]. by exists old.
  - simpl switchAll. simpl exclusive.
    destruct (setCamera env cam a) as [[[ret a1] tr1]|] eqn:Hset; [|done].
    destruct (switchAll sws a1) as [[a2 tr2]|] eqn:Hrest; [|done].
    intros [= <- <-].
    apply setCamera_inv in Hset
      as [(Hacq & -> & -> & ->)
         | (Hacq & -> & old' & sret & w2 & tr_start & Hold' & Hstart & -> & ->)].
    + destruct (IH _ _ _ old Hold Hrest) as (cur & Hcur & Hconn & Hheld).
      exists cur. split; [done|].
      rewrite held_app, connected_app. simpl.
      destruct (Z.eqb_spec (switch_acquire_ret env) 0); [done|].
      split; [done|]. intros [_ Hex]. by apply Hheld.
    + rewrite Hold in Hold'. injection Hold' as <-.
      destruct (IH (mkApp w2 (Some cam)) _ _ cam eq_refl Hrest)
        as (cur & Hcur & Hconn & Hheld).
      exists cur. split; [done|].
      rewrite !held_app, !connected_app, !held_Session, !connected_Session. simpl.
      rewrite filter_cons_False by (intros Hne; by apply Hne).
      rewrite filter_nil. split; [done|]. intros [Hne Hex].
      assert (camera_id cam ≠ camera_id old) as Hdiff.
      { intros Heq. by apply (Hne old Hold Heq). }
      rewrite filter_cons_False by (intros Hne'; by apply Hne').
      rewrite filter_cons_True, filter_nil by done. by apply Hheld.
Qed.

Lemma held_quit (b : bool) l : held (if b then [Quit] else []) l = l.
Proof. by destruct b. Qed.

Lemma connected_quit (b : bool) l : connected (if b then [Quit] else []) l = l.
Proof. by destruct b. Qed.

Ltac finish_app :=
  split_and!; try done; try (by intros _);
  try (unfold quits; simpl; first [lia | done | by intros [=]]); auto.

(** The two ways the constructor returns. *)
Lemma construct_inv frames previous last oenv senv a tr :
  construct frames previous last oenv senv = Done (a, tr) →
  ∃ oret a1 tr1,
    openCamera oenv (mkApp (initial frames previous last) None) = (oret, a1, tr1)
    ∧ ((oret ≠ 0 ∧ a = a1 ∧ tr = tr1 ++ (if oret <? 0 then [Quit] else []))
       ∨ (oret = 0
          ∧ ∃ sret w tr2,
              startCapture senv (window a1) = Done (sret, w, tr2)
              ∧ a = mkApp w (camera_ a1)
              ∧ tr = tr1 ++ (Session <$> tr2) ++ (if sret <? 0 then [Quit] else []))).
Proof.
  unfold construct.
  destruct (openCamera oenv (mkApp (initial frames previous last) None))
    as [[oret a1] tr1].
  destruct (Z.eqb_spec oret 0) as [->|Hne].
  - destruct (startCapture senv (window a1)) as [[[sret w] tr2]|] eqn:Hstart; [|done].
    intros [= <- <-]. exists 0, a1, tr1. split; [done|]. right. split; [done|].
    by exists sret, w, tr2.
  - intros [= <- <-]. exists oret, a1, tr1. split; [done|]. by left.
Qed.

(** X16.  The constructor posts [quit()] at most once.  When it leaves the
    window capturing it has not posted it and the camera is set.  When it has
    not posted it, either the window is capturing, or [camera_->start()]
    returned a positive value: the camera is set, the window stays open and
    is not capturing.  In every case the application holds exactly its
    camera, the window is connected exactly to it, and the window holds no
    mapping unless it is capturing. *)
Theorem construct_quit frames previous last oenv senv a tr :
  construct frames previous last oenv senv = Done (a, tr) →
  (quits tr ≤ 1)%nat
  ∧ (isCapturing_ (window a) = true → quits tr = 0%nat ∧ is_Some (camera_ a))
  ∧ (quits tr = 0%nat →
     isCapturing_ (window a) = true
     ∨ (0 < start_ret senv ∧ is_Some (camera_ a) ∧ isCapturing_ (window a) = false))
  ∧ linked a (held tr []) (connected tr [])
  ∧ idle_clean (window a).
Proof.
  intros Hnew. unfold linked.
  assert (- EINVAL < 0 ∧ - ENODEV < 0 ∧ - EBUSY < 0) as (? & ? & ?)
    by (unfold EINVAL, ENODEV, EBUSY; lia).
  apply construct_inv in Hnew as (oret & a1 & tr1 & Hopen & Hcases).
  apply openCamera_inv in Hopen as (name & tr0 & Hs0 & Hq0 & Hh0 & Hc0 & _ & Hopen).
  destruct Hcases as [(Hne & -> & ->)
                     | (-> & sret & w & tr2 & Hstart & -> & ->)].
  - assert (oret < 0 ∧ window a1 = initial frames previous last ∧ camera_ a1 = None
            ∧ held tr1 [] = [] ∧ connected tr1 [] = [] ∧ quits tr1 = 0%nat)
      as (Hneg & Hw & Hcam & Hh & Hc & Hq).
    { destruct Hopen as [(_ & -> & -> & ->) | [(_ & -> & -> & ->)
        | [(cam & _ & Hacq & -> & -> & ->) | (cam & _ & Hacq & -> & -> & ->)]]];
        [ | | | done];
        rewrite ?held_app, ?connected_app, ?quits_app, ?Hh0, ?Hc0, ?Hq0; simpl;
        try (destruct (Z.eqb_spec (acquire_ret oenv) 0); [done|]); done. }
    destruct (Z.ltb_spec oret 0); [|lia].
    rewrite held_app, connected_app, quits_app, Hh, Hc, Hq, Hw, Hcam. simpl.
    finish_app.
  - destruct Hopen as [(_ & ? & _) | [(_ & ? & _)
      | [(cam & _ & _ & ? & _) | (cam & _ & Hacq & _ & -> & ->)]]]; [lia..|].
    simpl in Hstart. simpl.
    rewrite !held_app, !connected_app, !quits_app, !held_Session, !connected_Session,
      quits_Session, Hh0, Hc0, Hq0. simpl.
    assert (∀ l : list UiEvent,
              (l = [Quit] ∨ l = []) → held l [camera_id cam] = [camera_id cam]
              ∧ connected l [camera_id cam] = [camera_id cam]) as Hl
      by (by intros l [-> | ->]).
    pose proof (startCapture_idle_clean _ _ _ _ _
                  (idle_clean_initial frames previous last) Hstart) as Hidle.
    destruct (startCapture_ret_sign _ _ _ _ _ Hstart)
      as [[-> Hcap] | [[Hneg Hcap] | (Hpos & Hret & _ & Hcap)]].
    + simpl. finish_app.
    + destruct (Z.ltb_spec sret 0); [|lia]. simpl. rewrite Hcap.
      finish_app.
    + destruct (Z.ltb_spec sret 0); [lia|]. simpl. rewrite Hcap.
      finish_app. intros _. right. by rewrite <- Hret.
Qed.

(** X17.  After the constructor and then the destructor the application
    holds no camera, the window is not capturing and holds no mapping; but
    the destructor never disconnects: when the constructor had opened a
    camera, the completion signal of that camera is still connected to the
    window. *)
Theorem construct_destroy frames previous last oenv senv stop_ret a tr :
  construct frames previous last oenv senv = Done (a, tr) →
  camera_ (destroy stop_ret a).1 = None
  ∧ held (tr ++ (destroy stop_ret a).2) [] = []
  ∧ connected (tr ++ (destroy stop_ret a).2) []
    = option_list (camera_id <$> camera_ a)
  ∧ isCapturing_ (window (destroy stop_ret a).1) = false
  ∧ mappedBuffers_ (window (destroy stop_ret a).1) = ∅.
Proof.
  intros Hnew.
  assert (linked a (held tr []) (connected tr []) ∧ idle_clean (window a)
          ∧ (camera_ a = None → window a = initial frames previous last)) as ([Hh Hc] & Hidle & Hnone).
  { apply construct_inv in Hnew as (oret & a1 & tr1 & Hopen & Hcases).
    apply openCamera_inv in Hopen as (name & tr0 & Hs0 & Hq0 & Hh0 & Hc0 & _ & Hopen).
    assert (- EINVAL ≠ 0 ∧ - ENODEV ≠ 0 ∧ - EBUSY ≠ 0) as (? & ? & ?)
      by (unfold EINVAL, ENODEV, EBUSY; lia).
    unfold linked.
    destruct Hcases as [(Hne & -> & ->)
                       | (-> & sret & w & tr2 & Hstart & -> & ->)].
    - destruct Hopen as [(_ & -> & -> & ->) | [(_ & -> & -> & ->)
        | [(cam & _ & Hacq & -> & -> & ->) | (cam & _ & Hacq & -> & -> & ->)]]];
        [ | | | done];
        rewrite ?held_app, ?connected_app, ?held_quit, ?connected_quit, ?Hh0, ?Hc0;
        simpl; rewrite ?held_quit, ?connected_quit;
        try (destruct (Z.eqb_spec (acquire_ret oenv) 0); [done|]);
        rewrite ?held_quit, ?connected_quit; by split_and!.
    - destruct Hopen as [(_ & ? & _) | [(_ & ? & _)
        | [(cam & _ & _ & ? & _) | (cam & _ & Hacq & _ & -> & ->)]]]; [done..|].
      simpl in Hstart. simpl.
      rewrite !held_app, !connected_app, !held_Session, !connected_Session,
        held_quit, connected_quit, Hh0, Hc0.
      simpl.
      pose proof (startCapture_idle_clean _ _ _ _ _
                  (idle_clean_initial frames previous last) Hstart) as Hidle.
      by split_and!. }
  unfold destroy. rewrite held_app, connected_app, Hh, Hc.
  destruct (camera_ a) as [cam|] eqn:Hcam; simpl.
  - pose proof (stopCapture_not_capturing stop_ret (window a)) as Hstop.
    pose proof (stopCapture_idle_clean stop_ret (window a) Hidle) as Hclean.
    destruct (stopCapture stop_ret (window a)) as [w1 tr1]. simpl in *.
    rewrite held_app, connected_app, held_Session, connected_Session. simpl.
    rewrite filter_cons_False by (intros Hne; by apply Hne).
    split_and!; try done. by apply Hclean.
  - by rewrite (Hnone eq_refl).
Qed.

(** * Sample runs of the properties above *)

Lemma startCapture_table_lookup_witness :
  mappedBuffers_ w_two !! plane_fd (mkPlane 3 4096 0)
  = Some (mmap_ret (cooperative two_buffers) 0, plane_length (mkPlane 3 4096 0)).
Proof.
  apply (startCapture_table_lookup (cooperative two_buffers) w_constructed w_two tr_two
           0%nat (buffer1 3) (mkPlane 3 4096 0) []).
  - vm_compute. reflexivity.
  - reflexivity.
  - reflexivity.
  - intros [|[|j']] b p ps' Hlt Hb Hp; [lia | | discriminate Hb].
    injection Hb as <-. injection Hp as <- _. discriminate.
Defined.

Lemma start_then_complete_displays_mapping_witness :
  ∃ w'' tr',
    requestComplete env_resubmit (request_one_plane 3 3 2000) w_two = Done (w'', tr')
    ∧ displayed tr' = [(mmap_ret (cooperative two_buffers) 0, 3)]
    ∧ mappedBuffers_ w'' = mappedBuffers_ w_two.
Proof.
  apply (start_then_complete_displays_mapping (cooperative two_buffers) w_constructed w_two
           tr_two 0%nat (buffer1 3) (mkPlane 3 4096 0) [] env_resubmit
           (request_one_plane 3 3 2000) 1 (mkFrameBuffer [mkPlane 3 4096 3] 0 2000) []
           (mkPlane 3 4096 3)).
  - vm_compute. reflexivity.
  - reflexivity.
  - reflexivity.
  - intros [|[|j']] b p ps' Hlt Hb Hp; [lia | | discriminate Hb].
    injection Hb as <-. injection Hp as <- _. discriminate.
  - discriminate.
  - reflexivity.
  - reflexivity.
  - reflexivity.
Defined.

Lemma two_buffers_NoDup : NoDup (first_fds (stream_buffers (cooperative two_buffers))).
Proof.
  simpl. apply NoDup_cons. split; [|apply NoDup_singleton].
  intros Hin. apply list_elem_of_singleton in Hin. discriminate.
Qed.

Lemma start_stop_unmaps_mappings_witness :
  munmapped (stopCapture 0 w_two).2 ≡ₚ (mmapped tr_two).*2
  ∧ length (mmapped tr_two) = length (stream_buffers (cooperative two_buffers))
  ∧ mappedBuffers_ (stopCapture 0 w_two).1 = ∅
  ∧ isCapturing_ (stopCapture 0 w_two).1 = false.
Proof.
  apply (start_stop_unmaps_mappings (cooperative two_buffers) w_constructed w_two tr_two 0).
  - vm_compute. reflexivity.
  - reflexivity.
  - apply two_buffers_NoDup.
Defined.

Lemma failed_start_unmaps_mappings_witness :
  munmapped tr_no_second_request ≡ₚ (mmapped tr_no_second_request).*2.
Proof.
  apply (failed_start_unmaps_mappings env_no_second_request w_constructed (-12)
           (mkMainWindow ∅ false 41 7 1234 AllocLive true false) tr_no_second_request).
  - vm_compute. reflexivity.
  - discriminate.
  - reflexivity.
  - apply two_buffers_NoDup.
Defined.

Lemma start_stop_leaks_shared_descriptor_witness :
  (length (munmapped (stopCapture 0 w_shared).2) < length (mmapped tr_shared))%nat.
Proof.
  apply (start_stop_leaks_shared_descriptor (cooperative shared_buffers) w_constructed
           w_shared tr_shared 0).
  - vm_compute. reflexivity.
  - reflexivity.
  - simpl. intros Hnd. apply NoDup_cons in Hnd as [Hin _].
    apply Hin. apply list_elem_of_singleton. reflexivity.
Defined.

Lemma queue_failure_deletes_queued_requests_witness :
  queued tr_queue_fails `prefix_of` deleted tr_queue_fails
  ∧ deleted tr_queue_fails = created tr_queue_fails
  ∧ camera_stops tr_queue_fails = []
  ∧ isCapturing_ w_failed_late = isCapturing_ w_constructed.
Proof.
  apply (queue_failure_deletes_queued_requests env_queue_fails w_constructed (-22)
           w_failed_late tr_queue_fails).
  - vm_compute. reflexivity.
  - discriminate.
  - reflexivity.
Defined.

Lemma failed_start_leftovers_witness :
  allocator_ w_failed_late = AllocLive
  ∧ titleTimer_ w_failed_late = true
  ∧ stopCapture 0 w_failed_late = (w_failed_late, []).
Proof.
  destruct (failed_start_leftovers env_queue_fails w_constructed (-22) w_failed_late
              tr_queue_fails) as (Halloc & Htimer & Hstop).
  - vm_compute. reflexivity.
  - discriminate.
  - reflexivity.
  - split; [exact Halloc|]. split.
    + apply Htimer. discriminate.
    + apply Hstop. reflexivity.
Defined.

Lemma completeAll_counts_witness :
  framesCaptured_ w_three
  = wrap32 (framesCaptured_ w_running + Z.of_nat (length (completed three_completions)))
  ∧ length (logged_fps tr_three) = length (completed three_completions)
  ∧ created tr_three = resubmitted three_completions
  ∧ queue_calls tr_three = resubmitted three_completions
  ∧ deleted tr_three = [].
Proof.
  apply (completeAll_counts three_completions w_running w_three tr_three).
  - vm_compute. reflexivity.
  - simpl. lia.
Defined.

Lemma completeAll_keeps_mappings_witness :
  mappedBuffers_ w_three !! 3 = Some (65536, 4096)
  ∧ mmapped tr_three = [] ∧ munmapped tr_three = []
  ∧ isCapturing_ w_three = isCapturing_ w_running.
Proof.
  destruct (completeAll_keeps_mappings three_completions w_running w_three tr_three)
    as (Hkeep & _ & Hm & Hu & Hcap & _).
  - vm_compute. reflexivity.
  - split; [|done]. apply Hkeep. reflexivity.
Defined.

Lemma run_invariants_witness :
  ∃ w', run short_session w_constructed = Done w' ∧ idle_clean w' ∧ counters_in_range w'.
Proof.
  eexists. split; [vm_compute; reflexivity|].
  eapply (run_invariants short_session w_constructed).
  - vm_compute. reflexivity.
  - simpl. split; [done|]. split; [by right|]. done.
  - apply idle_clean_initial.
  - unfold counters_in_range. simpl. lia.
Defined.

Lemma updateTitle_counts_frames_witness :
  (updateTitle 2000 w_wrapped).2
  = double_div (double_mul (double_of_uint32 1) d1000) (double_of_uint32 2000)
  ∧ previousFrames_ (updateTitle 2000 w_wrapped).1 = 0
  ∧ framesCaptured_ (updateTitle 2000 w_wrapped).1 = 0.
Proof.
  apply (updateTitle_counts_frames 2000 [(env_resubmit, request_one_plane 3 3 1000)]
           w_wrapping w_wrapped tr_wrapped).
  - reflexivity.
  - vm_compute. reflexivity.
  - simpl. lia.
Defined.

Lemma updateTitle_edge_rates_witness :
  (updateTitle 1000 w_failed_late).2 = S754_zero false
  ∧ (updateTitle 0 w_failed_late).2 = S754_nan
  ∧ (updateTitle (2 ^ 32) w_three).2 = S754_infinity false.
Proof.
  split; [|split].
  - apply (updateTitle_edge_rates 1000 w_failed_late); [reflexivity | discriminate].
  - apply (updateTitle_edge_rates 0 w_failed_late); reflexivity.
  - apply (updateTitle_edge_rates (2 ^ 32) w_three); [discriminate | reflexivity].
Defined.

Lemma openCamera_result_witness :
  linked (mkApp w_constructed (Some cam_a)) [1] [1]
  ∧ dialogs [Get "a" (Some cam_a); Acquire 1 0; Connect 1] = 0%nat.
Proof.
  destruct (openCamera_result env_one_camera (mkApp w_constructed None) 0
              (mkApp w_constructed (Some cam_a))
              [Get "a"%string (Some cam_a); Acquire 1 0; Connect 1])
    as (Hlinked & _ & _ & _ & _ & _ & Hdialogs).
  - reflexivity.
  - vm_compute. reflexivity.
  - split; [exact Hlinked | exact Hdialogs].
Defined.

Lemma setCamera_result_witness :
  ∃ a' tr,
    setCamera (switch_ok env_queue_fails) cam_b (mkApp w_running (Some cam_a))
    = Done (0, a', tr)
    ∧ camera_ a' = Some cam_b
    ∧ ∃ sret tr_start,
        startCapture env_queue_fails (stopCapture 0 w_running).1
        = Done (sret, window a', tr_start)
        ∧ (isCapturing_ (window a') = true ↔ sret = 0)
        ∧ session tr = (stopCapture 0 w_running).2 ++ tr_start.
Proof.
  eexists _, _. split; [vm_compute; reflexivity|].
  edestruct (setCamera_result (switch_ok env_queue_fails) cam_b
               (mkApp w_running (Some cam_a)))
    as [(Hacq & _) | (_ & _ & Hcam & Hstart)].
  - vm_compute. reflexivity.
  - destruct Hacq. reflexivity.
  - split; [exact Hcam | exact Hstart].
Defined.

Lemma switchAll_linked_witness :
  ∃ a' tr,
    switchAll there_and_back (mkApp w_running (Some cam_a)) = Done (a', tr)
    ∧ ∃ cur, camera_ a' = Some cur
        ∧ connected tr [1] = [camera_id cur]
        ∧ held tr [1] = [camera_id cur].
Proof.
  eexists _, _. split; [vm_compute; reflexivity|].
  edestruct (switchAll_linked there_and_back (mkApp w_running (Some cam_a)))
    as (cur & Hcur & Hconn & Hheld).
  - reflexivity.
  - vm_compute. reflexivity.
  - exists cur. split; [exact Hcur|]. split; [exact Hconn|].
    apply Hheld. split.
    + intros old [= <-] Hid. discriminate Hid.
    + vm_compute. split; [|exact I].
      intros old [= <-] Hid. discriminate Hid.
Defined.

Lemma construct_quit_witness :
  ∃ a tr,
    construct 41 7 1234 env_one_camera env_start_positive = Done (a, tr)
    ∧ (quits tr ≤ 1)%nat
    ∧ is_Some (camera_ a) ∧ isCapturing_ (window a) = false
    ∧ linked a (held tr []) (connected tr [])
    ∧ idle_clean (window a).
Proof.
  eexists _, _. split; [vm_compute; reflexivity|].
  edestruct (construct_quit 41 7 1234 env_one_camera env_start_positive)
    as (Hle & _ & Hopen & Hlinked & Hidle).
  - vm_compute. reflexivity.
  - split; [exact Hle|].
    destruct Hopen as [Hcap | (_ & Hcam & Hcap)]; [reflexivity | discriminate Hcap |].
    split; [exact Hcam|]. split; [exact Hcap|]. split; [exact Hlinked | exact Hidle].
Defined.

Lemma construct_destroy_witness :
  ∃ a tr,
    construct 41 7 1234 env_one_camera (cooperative two_buffers) = Done (a, tr)
    ∧ camera_ (destroy 0 a).1 = None
    ∧ held (tr ++ (destroy 0 a).2) [] = []
    ∧ connected (tr ++ (destroy 0 a).2) [] = [1]
    ∧ isCapturing_ (window (destroy 0 a).1) = false
    ∧ mappedBuffers_ (window (destroy 0 a).1) = ∅.
Proof.
  eexists _, _. split; [vm_compute; reflexivity|].
  eapply (construct_destroy 41 7 1234 env_one_camera (cooperative two_buffers) 0).
  vm_compute. reflexivity.
Defined.

Lemma restart_forgets_mappings_witness :
  ∃ w' tr,
    startCapture env_restart w_two = Done (0, w', tr)
    ∧ (65536, 4096) ∉ munmapped (stopCapture 0 w').2
    ∧ mappedBuffers_ w' !! 3 ≠ Some (65536, 4096).
Proof.
  eexists _, _. split; [vm_compute; reflexivity|].
  eapply (restart_forgets_mappings env_restart w_two _ _ 0 3 (65536, 4096)).
  - vm_compute. reflexivity.
  - reflexivity.
  - apply list_elem_of_here.
  - simpl. intros Hin.
    apply elem_of_cons in Hin as [Heq | Hin]; [discriminate Heq|].
    apply list_elem_of_singleton in Hin. discriminate Hin.
  - intros k Hk. destruct (decide (k = 3)) as [-> | H3]; [reflexivity|].
    destruct (decide (k = 4)) as [-> | H4]; [discriminate Hk|].
    unfold w_two in Hk. simpl in Hk.
    rewrite lookup_insert_ne, lookup_singleton_ne in Hk by done. discriminate Hk.
Defined.
